(** * DeepInfra embedding client: batching, dispatch and reassembly

    Shallow embedding of
    [llama_index/embeddings/deepinfra/base.py]: the module constants, the
    [DeepInfraEmbeddingModel] class (constructor, URL construction,
    prefixing, the blocking [_post] and the suspendable [_apost] with the
    eight embedding methods built on them) and the module function
    [_chunk].

    Python values are modelled as follows.
    - [str] is [string], [List[str]] is [list string]; an attribute that
      may hold [None] is an [option].
    - A [float] is opaque to the client, so the development is generic in
      the type [float] of numbers; an embedding vector is [list float].
    - A raised exception is a value of [exn]; a computation that may raise
      returns a [result].
    - The client object and the network are an explicit state: every
      method is a state transformer that returns a [result] together with
      the state it leaves behind, also when it raises. *)

From Stdlib Require Import String Arith PeanoNat Bool Lia List.
Import ListNotations.
Local Open Scope string_scope.
Local Open Scope list_scope.
Local Open Scope nat_scope.

(* ===================================================================== *)
(** ** Module constants *)
(* ===================================================================== *)

(** DeepInfra Inference API URL. *)
Definition INFERENCE_URL : string := "https://api.deepinfra.com/v1/inference".
(** Environment variable name of DeepInfra API token. *)
Definition ENV_VARIABLE : string := "DEEPINFRA_API_TOKEN".
(** Default model ID for DeepInfra embeddings. *)
Definition DEFAULT_MODEL_ID : string := "sentence-transformers/clip-ViT-B-32".
(** Maximum batch size for embedding requests. *)
Definition MAX_BATCH_SIZE : nat := 1024.

(* ===================================================================== *)
(** ** Exceptions and results *)
(* ===================================================================== *)

Inductive exn : Type :=
| ValueError                 (* range() arg 3 must not be zero *)
| IndexError                 (* list index out of range *)
| KeyError (key : string)    (* missing key of a decoded JSON object *)
| JSONDecodeError            (* json.JSONDecodeError, or the subclass of
                                it that requests raises: the body of a
                                response does not parse *)
| HTTPError (status : nat)   (* requests' Response.raise_for_status *)
| TransportError             (* the POST itself failed: the connection
                                error of the library in use *)
| TypeError                  (* subscripting a value that is no dict *)
| ContentTypeError.          (* aiohttp: the response is not labelled JSON *)

Inductive result (A : Type) : Type :=
| Ok (a : A)
| Raise (e : exn).
Arguments Ok {A} a.
Arguments Raise {A} e.

Definition is_ok {A : Type} (r : result A) : bool :=
  match r with Ok _ => true | Raise _ => false end.

(* ===================================================================== *)
(** ** Python built-ins used by the module *)
(* ===================================================================== *)

Module Py.

(** [items[lo:hi]] for [0 <= lo]: the elements at the positions
    [lo, lo+1, ..., min hi (len items) - 1]; slicing never raises. *)
Definition slice {A : Type} (items : list A) (lo hi : nat) : list A :=
  firstn (hi - lo) (skipn lo items).

(** The iteration of [range(i, stop, step)] with [step > 0]: yield [i]
    while [i < stop], then advance by [step].  [fuel] bounds the number
    of values; [stop - i] is always enough ([range_iter_fuel]). *)
Fixpoint range_iter (fuel i stop step : nat) : list nat :=
  match fuel with
  | O => []
  | S fuel' =>
      if i <? stop then i :: range_iter fuel' (i + step) stop step else []
  end.

(** [range(start, stop, step)], materialised; a zero step raises. *)
Definition range (start stop step : nat) : result (list nat) :=
  if step =? 0 then Raise ValueError
  else Ok (range_iter (stop - start) start stop step).

(** [xs[i]] *)
Definition getitem {A : Type} (xs : list A) (i : nat) : result A :=
  match nth_error xs i with
  | Some x => Ok x
  | None => Raise IndexError
  end.

(** [str(x)] inside an f-string, for an attribute that may be [None]. *)
Definition format (x : option string) : string :=
  match x with
  | Some s => s
  | None => "None"
  end.

(** [os.getenv(key, default)] over the process environment [environ]. *)
Definition getenv (environ : string -> option string)
           (key : string) (default : option string) : option string :=
  match environ key with
  | Some v => Some v
  | None => default
  end.

End Py.

(** [ceil(L / M)] on natural numbers, for [M > 0]. *)
Definition ceil_div (L M : nat) : nat := (L + M - 1) / M.

(* ===================================================================== *)
(** ** [_chunk] *)
(* ===================================================================== *)

(** The source reads the module constant [MAX_BATCH_SIZE]; the embedding
    takes it as the parameter [max_batch_size], so that the batching
    policy can be stated for every bound, and is instantiated with
    [MAX_BATCH_SIZE] at the end of the file.

    [return [items[i : i + MAX_BATCH_SIZE]
             for i in range(0, len(items), MAX_BATCH_SIZE)]] *)
Definition _chunk {A : Type} (max_batch_size : nat) (items : list A)
  : result (list (list A)) :=
  match Py.range 0 (length items) max_batch_size with
  | Raise e => Raise e
  | Ok starts =>
      Ok (map (fun i => Py.slice items i (i + max_batch_size)) starts)
  end.

(** The [k]-th batch of [items] for the bound [M]: the slice that starts
    at position [k * M]. *)
Definition batch {A : Type} (M : nat) (items : list A) (k : nat) : list A :=
  Py.slice items (k * M) (k * M + M).

(* ===================================================================== *)
(** ** The client object, the wire and the state *)
(* ===================================================================== *)

(** The five private attributes of [DeepInfraEmbeddingModel]. The token
    is [None] when neither source provides one. *)
Record DeepInfraEmbeddingModel : Type := mkModel {
  _model_id : string;
  _normalize : bool;
  _api_token : option string;
  _query_prefix : string;
  _text_prefix : string
}.

(** [__init__]: [environ] is the process environment read by
    [os.getenv]. The [callback_manager] argument is only handed to the
    base class and touches none of the five attributes.

    [self._api_token = os.getenv(ENV_VARIABLE, api_token)] *)
Definition __init__ (environ : string -> option string)
           (model_id : string) (normalize : bool) (api_token : option string)
           (query_prefix text_prefix : string) : DeepInfraEmbeddingModel :=
  {| _model_id := model_id;
     _normalize := normalize;
     _api_token := Py.getenv environ ENV_VARIABLE api_token;
     _query_prefix := query_prefix;
     _text_prefix := text_prefix |}.

(** One POST as the client builds it: the URL, the [inputs] field of the
    JSON body and the two headers. *)
Record Request : Type := mkRequest {
  req_url : string;
  req_inputs : list string;
  req_authorization : string;
  req_content_type : string
}.

(** The statuses for which [Response.raise_for_status] of requests
    raises: the client and server errors, 400 to 599. *)
Definition is_error_status (status : nat) : bool :=
  (400 <=? status) && (status <? 600).

Section Client.

(** The numbers of an embedding vector. *)
Variable float : Type.

Definition vector : Type := list float.

(** The body of a response, as far as decoding it goes: nothing (or
    white space only), text that is not JSON, a JSON value that is not
    an object (null, a number, a string, an array), or a JSON object
    with or without the key ["embeddings"]. *)
Inductive Body : Type :=
| Empty
| NotJSON
| JSONValue
| JSONObject (embeddings : option (list vector)).

(** A response: its status, whether its Content-Type header names a
    JSON type, and its body. *)
Record Response : Type := mkResponse {
  status_code : nat;
  json_content_type : bool;
  body : Body
}.

(** A decoded body as a Python value: a [dict], or a value that is not
    one ([None], a number, a string, a list). *)
Inductive Decoded : Type :=
| NotDict
| Dict (embeddings : option (list vector)).

(** The outcome of one POST: no response at all (connection failure
    and the like), or a response with a status. *)
Inductive Reply : Type :=
| NoResponse
| Responded (r : Response).

(** The remote endpoint: a deterministic service whose reply may depend
    on every request sent before. *)
Variable remote : list Request -> Request -> Reply.

(** The batch bound, [MAX_BATCH_SIZE] in the source. *)
Variable max_batch_size : nat.

(** The state: the client object and the requests sent so far, oldest
    first. *)
Record World : Type := mkWorld {
  self : DeepInfraEmbeddingModel;
  sent : list Request
}.

(** Computations: state in, result and state out. An exception keeps
    the state reached when it was raised. *)
Definition Action (A : Type) : Type := World -> result A * World.

Definition ret {A : Type} (a : A) : Action A := fun w => (Ok a, w).

Definition raise {A : Type} (e : exn) : Action A := fun w => (Raise e, w).

Definition bind {A B : Type} (c : Action A) (k : A -> Action B) : Action B :=
  fun w =>
    match c w with
    | (Ok a, w') => k a w'
    | (Raise e, w') => (Raise e, w')
    end.

Definition lift {A : Type} (r : result A) : Action A := fun w => (r, w).

(** [self.<attribute>] *)
Definition attr {A : Type} (field : DeepInfraEmbeddingModel -> A) : Action A :=
  fun w => (Ok (field (self w)), w).

Notation "x <- c ;; k" := (bind c (fun x => k))
  (at level 61, c at next level, right associativity).
Notation "c ;;; k" := (bind c (fun _ => k))
  (at level 61, right associativity).

(** [requests.post(url, json={"inputs": chunk}, headers={...})], and
    likewise [session.post] of aiohttp: the request goes on the wire and
    the remote's reply comes back; a transport failure raises. *)
Definition http_post (url : string) (chunk : list string)
           (authorization content_type : string) : Action Response :=
  fun w =>
    let request := mkRequest url chunk authorization content_type in
    let w' := mkWorld (self w) (sent w ++ [request]) in
    match remote (sent w) request with
    | NoResponse => (Raise TransportError, w')
    | Responded r => (Ok r, w')
    end.

(** [response.raise_for_status()] *)
Definition raise_for_status (response : Response) : Action unit :=
  if is_error_status (status_code response)
  then raise (HTTPError (status_code response))
  else ret tt.

(** [response.json()] of requests: decodes the body whatever the
    content type says; a body that does not parse, the empty one
    included, raises. *)
Definition Response_json (response : Response) : Action Decoded :=
  match body response with
  | Empty => raise JSONDecodeError
  | NotJSON => raise JSONDecodeError
  | JSONValue => ret NotDict
  | JSONObject embeddings => ret (Dict embeddings)
  end.

(** [await resp.json()] of aiohttp: refuses a response whose content
    type is not a JSON type, gives [None] for an empty body, and
    decodes any other body. *)
Definition ClientResponse_json (resp : Response) : Action Decoded :=
  if json_content_type resp
  then
    match body resp with
    | Empty => ret NotDict
    | NotJSON => raise JSONDecodeError
    | JSONValue => ret NotDict
    | JSONObject embeddings => ret (Dict embeddings)
    end
  else raise ContentTypeError.

(** [<decoded body>["embeddings"]] *)
Definition getitem_embeddings (decoded : Decoded) : Action (list vector) :=
  match decoded with
  | NotDict => raise TypeError
  | Dict (Some embeddings) => ret embeddings
  | Dict None => raise (KeyError "embeddings")
  end.

(** [f"{INFERENCE_URL}/{self._model_id}"] *)
Definition get_url : Action string :=
  model_id <- attr _model_id ;;
  ret (String.append INFERENCE_URL (String.append "/" model_id)).

(** The body of [for chunk in chunked_data] in [_post], with the
    accumulator [embeddings]. *)
Fixpoint _post_loop (url : string) (chunked_data : list (list string))
         (embeddings : list vector) : Action (list vector) :=
  match chunked_data with
  | [] => ret embeddings
  | chunk :: rest =>
      api_token <- attr _api_token ;;
      response <- http_post url chunk
                    (String.append "Bearer " (Py.format api_token))
                    "application/json" ;;
      raise_for_status response ;;;
      decoded <- Response_json response ;;
      batch_embeddings <- getitem_embeddings decoded ;;
      _post_loop url rest (embeddings ++ batch_embeddings)
  end.

Definition _post (data : list string) : Action (list vector) :=
  url <- get_url ;;
  chunked_data <- lift (_chunk max_batch_size data) ;;
  _post_loop url chunked_data [].

(** The loop of [_apost]: one session and one POST per chunk, awaited
    before the next; the status of the response is not looked at, and
    the body is decoded by aiohttp, not by requests. An
    [await] is sequencing here: the embedding follows one call to its
    end and leaves out what other tasks do at the suspension points. *)
Fixpoint _apost_loop (url : string) (chunked_data : list (list string))
         (embeddings : list vector) : Action (list vector) :=
  match chunked_data with
  | [] => ret embeddings
  | chunk :: rest =>
      api_token <- attr _api_token ;;
      resp <- http_post url chunk
                (String.append "Bearer " (Py.format api_token))
                "application/json" ;;
      response <- ClientResponse_json resp ;;
      batch_embeddings <- getitem_embeddings response ;;
      _apost_loop url rest (embeddings ++ batch_embeddings)
  end.

Definition _apost (data : list string) : Action (list vector) :=
  url <- get_url ;;
  chunked_data <- lift (_chunk max_batch_size data) ;;
  _apost_loop url chunked_data [].

(** [[self._query_prefix + query for query in queries]] *)
Definition _add_query_prefix (queries : list string) : Action (list string) :=
  query_prefix <- attr _query_prefix ;;
  ret (map (fun query => String.append query_prefix query) queries).

(** [[self._text_prefix + text for text in texts]] *)
Definition _add_text_prefix (texts : list string) : Action (list string) :=
  text_prefix <- attr _text_prefix ;;
  ret (map (fun text => String.append text_prefix text) texts).

Definition _get_query_embedding (query : string) : Action vector :=
  data <- _add_query_prefix [query] ;;
  response <- _post data ;;
  lift (Py.getitem response 0).

Definition _aget_query_embedding (query : string) : Action vector :=
  data <- _add_query_prefix [query] ;;
  response <- _apost data ;;
  lift (Py.getitem response 0).

Definition _get_query_embeddings (queries : list string)
  : Action (list vector) :=
  data <- _add_query_prefix queries ;;
  _post data.

Definition _aget_query_embeddings (queries : list string)
  : Action (list vector) :=
  data <- _add_query_prefix queries ;;
  _apost data.

Definition _get_text_embedding (text : string) : Action vector :=
  data <- _add_text_prefix [text] ;;
  response <- _post data ;;
  lift (Py.getitem response 0).

Definition _aget_text_embedding (text : string) : Action vector :=
  data <- _add_text_prefix [text] ;;
  response <- _apost data ;;
  lift (Py.getitem response 0).

Definition _get_text_embeddings (texts : list string) : Action (list vector) :=
  data <- _add_text_prefix texts ;;
  _post data.

Definition _aget_text_embeddings (texts : list string) : Action (list vector) :=
  data <- _add_text_prefix texts ;;
  _apost data.

End Client.

Arguments Empty {float}.
Arguments NotJSON {float}.
Arguments JSONValue {float}.
Arguments JSONObject {float} embeddings.
Arguments mkResponse {float} status_code json_content_type body.
Arguments status_code {float} r.
Arguments json_content_type {float} r.
Arguments body {float} r.
Arguments NotDict {float}.
Arguments Dict {float} embeddings.
Arguments NoResponse {float}.
Arguments Responded {float} r.
Arguments http_post {float} remote url chunk authorization content_type.
Arguments raise_for_status {float} response.
Arguments Response_json {float} response.
Arguments ClientResponse_json {float} resp.
Arguments getitem_embeddings {float} decoded.
Arguments _post_loop {float} remote url chunked_data embeddings.
Arguments _post {float} remote max_batch_size data.
Arguments _apost_loop {float} remote url chunked_data embeddings.
Arguments _apost {float} remote max_batch_size data.
Arguments _get_query_embedding {float} remote max_batch_size query.
Arguments _aget_query_embedding {float} remote max_batch_size query.
Arguments _get_query_embeddings {float} remote max_batch_size queries.
Arguments _aget_query_embeddings {float} remote max_batch_size queries.
Arguments _get_text_embedding {float} remote max_batch_size text.
Arguments _aget_text_embedding {float} remote max_batch_size text.
Arguments _get_text_embeddings {float} remote max_batch_size texts.
Arguments _aget_text_embeddings {float} remote max_batch_size texts.

(* ===================================================================== *)
(** ** The operations by kind and execution mode *)
(* ===================================================================== *)

(** The two kinds of input and the two execution modes. The class has
    one method per combination; [embed] and [embed_one] select it. *)
Inductive Kind : Type := query | text.
Inductive Mode : Type := blocking | suspendable.

Definition prefix_of (kind : Kind) (c : DeepInfraEmbeddingModel) : string :=
  match kind with
  | query => _query_prefix c
  | text => _text_prefix c
  end.

Definition add_prefix (kind : Kind) (inputs : list string) : Action (list string) :=
  match kind with
  | query => _add_query_prefix inputs
  | text => _add_text_prefix inputs
  end.

Section Dispatch.

Context {float : Type}.
Variable remote : list Request -> Request -> Reply float.
Variable max_batch_size : nat.

Definition post (mode : Mode) (data : list string) : Action (list (vector float)) :=
  match mode with
  | blocking => _post remote max_batch_size data
  | suspendable => _apost remote max_batch_size data
  end.

Definition embed (mode : Mode) (kind : Kind) (inputs : list string)
  : Action (list (vector float)) :=
  match mode, kind with
  | blocking, query => _get_query_embeddings remote max_batch_size inputs
  | blocking, text => _get_text_embeddings remote max_batch_size inputs
  | suspendable, query => _aget_query_embeddings remote max_batch_size inputs
  | suspendable, text => _aget_text_embeddings remote max_batch_size inputs
  end.

Definition embed_one (mode : Mode) (kind : Kind) (input : string)
  : Action (vector float) :=
  match mode, kind with
  | blocking, query => _get_query_embedding remote max_batch_size input
  | blocking, text => _get_text_embedding remote max_batch_size input
  | suspendable, query => _aget_query_embedding remote max_batch_size input
  | suspendable, text => _aget_text_embedding remote max_batch_size input
  end.

(** Every method of the class that can be called on a constructed
    client, with the type of what it returns. *)
Inductive Operation : Type -> Type :=
| Get_url : Operation string
| Add_prefix (kind : Kind) (inputs : list string) : Operation (list string)
| Post (mode : Mode) (data : list string) : Operation (list (vector float))
| Embed (mode : Mode) (kind : Kind) (inputs : list string)
  : Operation (list (vector float))
| Embed_one (mode : Mode) (kind : Kind) (input : string)
  : Operation (vector float).

Definition exec {T : Type} (op : Operation T) : Action T :=
  match op with
  | Get_url => get_url
  | Add_prefix kind inputs => add_prefix kind inputs
  | Post mode data => post mode data
  | Embed mode kind inputs => embed mode kind inputs
  | Embed_one mode kind input => embed_one mode kind input
  end.

End Dispatch.

(** The request the client [c] builds for one chunk. *)
Definition request_for (c : DeepInfraEmbeddingModel) (chunk : list string)
  : Request :=
  {| req_url := String.append INFERENCE_URL (String.append "/" (_model_id c));
     req_inputs := chunk;
     req_authorization := String.append "Bearer " (Py.format (_api_token c));
     req_content_type := "application/json" |}.

(** The requests sent between the state [w] and a later state [w'], and
    the strings they carry. *)
Definition issued (w w' : World) : list Request :=
  skipn (length (sent w)) (sent w').

Definition submitted (w w' : World) : list string :=
  concat (map req_inputs (issued w w')).

(** The same client with another value of the normalize flag. *)
Definition with_normalize (b : bool) (c : DeepInfraEmbeddingModel)
  : DeepInfraEmbeddingModel :=
  {| _model_id := _model_id c;
     _normalize := b;
     _api_token := _api_token c;
     _query_prefix := _query_prefix c;
     _text_prefix := _text_prefix c |}.

(** The replies of the remote to the requests [reqs] sent one after the
    other on top of the history [h]. *)
Fixpoint replies {float : Type}
         (remote : list Request -> Request -> Reply float)
         (h : list Request) (reqs : list Request) : list (Reply float) :=
  match reqs with
  | [] => []
  | r :: reqs' => remote h r :: replies remote (h ++ [r]) reqs'
  end.

(** The reply [rep] carries the list of vectors [vs]: a response
    labelled JSON whose body is an object with [vs] under
    ["embeddings"], with a status that is not an error status. *)
Definition carries {float : Type} (rep : Reply float)
           (vs : list (vector float)) : Prop :=
  exists status,
    rep = Responded (mkResponse status true (JSONObject (Some vs)))
    /\ is_error_status status = false.

(** The batches of [data] for the bound [M], in closed form; [_chunk]
    computes them ([_chunk_closed]). *)
Definition batches {A : Type} (M : nat) (data : list A) : list (list A) :=
  map (batch M data) (seq 0 (ceil_div (length data) M)).

(** The request the client of [w] sends to [url] for one chunk, and the
    state after it is sent. *)
Definition request_to (w : World) (url : string) (chunk : list string)
  : Request :=
  mkRequest url chunk (req_authorization (request_for (self w) chunk))
            "application/json".

Definition after_post (w : World) (url : string) (chunk : list string)
  : World :=
  mkWorld (self w) (sent w ++ [request_to w url chunk]).

(** The loop of either mode. *)
Definition loop {float : Type}
           (remote : list Request -> Request -> Reply float) (mode : Mode)
  : string -> list (list string) -> list (vector float)
    -> Action (list (vector float)) :=
  match mode with
  | blocking => _post_loop remote
  | suspendable => _apost_loop remote
  end.

(** What a run over [chunks] from the state [w] leaves behind: the
    client object untouched, and on the wire the requests of the first
    [k] chunks, in order, where [k] is the number of all chunks when the
    run returned and at least one when it raised. *)
Definition traced {A : Type} (w : World) (url : string)
           (chunks : list (list string)) (out : result A * World) : Prop :=
  self (snd out) = self w
  /\ exists k,
      k <= length chunks
      /\ sent (snd out) = sent w ++ map (request_to w url) (firstn k chunks)
      /\ (is_ok (fst out) = true -> k = length chunks)
      /\ (is_ok (fst out) = false -> 0 < k).

(** What one iteration of the loop of [mode] makes of the reply to its
    request: the list to append, or the exception that ends the call
    ([loop_cons]). [_post] checks the status and decodes with requests;
    [_apost] decodes with aiohttp, which checks the content type and
    takes an empty body for [None]; both then read ["embeddings"]. *)
Definition verdict {float : Type} (mode : Mode) (rep : Reply float)
  : result (list (vector float)) :=
  match rep with
  | NoResponse => Raise TransportError
  | Responded r =>
      match mode with
      | blocking =>
          if is_error_status (status_code r)
          then Raise (HTTPError (status_code r))
          else
            match body r with
            | Empty => Raise JSONDecodeError
            | NotJSON => Raise JSONDecodeError
            | JSONValue => Raise TypeError
            | JSONObject None => Raise (KeyError "embeddings")
            | JSONObject (Some e) => Ok e
            end
      | suspendable =>
          if json_content_type r
          then
            match body r with
            | Empty => Raise TypeError
            | NotJSON => Raise JSONDecodeError
            | JSONValue => Raise TypeError
            | JSONObject None => Raise (KeyError "embeddings")
            | JSONObject (Some e) => Ok e
            end
          else Raise ContentTypeError
      end
  end.

(** The reply is one the loop of [mode] goes on after. *)
Definition accepted {float : Type} (mode : Mode) (rep : Reply float) : bool :=
  is_ok (verdict mode rep).

(** The number of replies at the head of [reps] that [mode] accepts. *)
Fixpoint accepted_run {float : Type} (mode : Mode) (reps : list (Reply float))
  : nat :=
  match reps with
  | [] => 0
  | rep :: rest =>
      if accepted mode rep then S (accepted_run mode rest) else 0
  end.

(** A computation that leaves the client object as it found it. *)
Definition frames {A : Type} (c : Action A) : Prop :=
  forall w, self (snd (c w)) = self w.

(** The state [w] with another normalize flag, and a computation that
    cannot tell the difference: same result, same wire. *)
Definition renorm (b : bool) (w : World) : World :=
  mkWorld (with_normalize b (self w)) (sent w).

Definition inert {A : Type} (c : Action A) : Prop :=
  forall b w, c (renorm b w) = (fst (c w), renorm b (snd (c w))).

(** A sequence of calls on one client, whatever they return or raise. *)
Definition call {float : Type} : Type := {T : Type & Operation (float := float) T}.

Definition run_all {float : Type}
           (remote : list Request -> Request -> Reply float)
           (max_batch_size : nat) (calls : list (call (float := float)))
           (w : World) : World :=
  fold_left (fun w c => snd (exec remote max_batch_size (projT2 c) w)) calls w.

(* ===================================================================== *)
(** ** Test doubles *)
(* ===================================================================== *)

Module Stub.

(** The numbers are naturals here; the vector of a string holds its
    length. *)
Definition vec (s : string) : vector nat := [String.length s].

Definition answer (status : nat) (req : Request) : Reply nat :=
  Responded (mkResponse status true
                        (JSONObject (Some (map vec (req_inputs req))))).

(** A remote that answers every request with status 200 and one
    vector per input. *)
Definition echo : list Request -> Request -> Reply nat :=
  fun _ req => answer 200 req.

(** A remote that sends the same bodies, but status 500 with the
    second request it sees. *)
Definition second_fails : list Request -> Request -> Reply nat :=
  fun h req => answer (if length h =? 1 then 500 else 200) req.

(** A remote that sends the same bodies, always with status 500. *)
Definition always_500 : list Request -> Request -> Reply nat :=
  fun _ req => answer 500 req.

(** An environment without, and one with, the token variable. *)
Definition no_environ : string -> option string := fun _ => None.

Definition token_environ : string -> option string :=
  fun key => if String.eqb key ENV_VARIABLE then Some "token-of-env" else None.

(** A client with both prefixes set, on a wire with no traffic yet. *)
Definition client : DeepInfraEmbeddingModel :=
  __init__ no_environ DEFAULT_MODEL_ID false (Some "secret") "Q: " "T: ".

Definition fresh : World := mkWorld client [].

Definition five : list string := ["a"; "b"; "c"; "d"; "e"].

(** A remote that answers every request with status 200 and an empty
    list of embeddings. *)
Definition silent : list Request -> Request -> Reply nat :=
  fun _ _ => Responded (mkResponse 200 true (JSONObject (Some []))).

(** A remote that answers the first request like [echo] and every later
    one with status 200, labelled JSON, and an empty body. *)
Definition runs_dry : list Request -> Request -> Reply nat :=
  fun h req =>
    match h with
    | [] => answer 200 req
    | _ :: _ => Responded (mkResponse 200 true Empty)
    end.

(** The client built with every argument left at its default, in an
    environment without the token variable. *)
Definition default_client : DeepInfraEmbeddingModel :=
  __init__ no_environ DEFAULT_MODEL_ID false None "" "".

Definition default_fresh : World := mkWorld default_client [].

End Stub.

(* ===================================================================== *)
(** ** Arithmetic of [ceil_div] and list facts *)
(* ===================================================================== *)

Section Ceil.

Variable M : nat.
Hypothesis M_pos : 0 < M.

Lemma ceil_div_0 : ceil_div 0 M = 0.
Proof.
  unfold ceil_div. apply Nat.div_small. lia.
Qed.

Lemma ceil_div_succ (a : nat) :
  0 < a -> ceil_div a M = S (ceil_div (a - M) M).
Proof.
  intros Ha. unfold ceil_div.
  destruct (Nat.le_gt_cases M a) as [Hle | Hlt].
  - replace (a + M - 1) with ((a - M + M - 1) + 1 * M) by lia.
    rewrite Nat.div_add by lia. lia.
  - replace (a - M) with 0 by lia.
    rewrite (Nat.div_small (0 + M - 1)) by lia.
    replace (a + M - 1) with ((a - 1) + 1 * M) by lia.
    rewrite Nat.div_add by lia.
    rewrite Nat.div_small by lia. reflexivity.
Qed.

(** [ceil_div L M] is the least [n] with [L <= n * M]. *)
Lemma ceil_div_upper (L : nat) : L <= ceil_div L M * M.
Proof.
  unfold ceil_div.
  pose proof (Nat.div_mod_eq (L + M - 1) M) as E.
  pose proof (Nat.mod_upper_bound (L + M - 1) M ltac:(lia)) as B.
  nia.
Qed.

Lemma ceil_div_least (L n : nat) : L <= n * M -> ceil_div L M <= n.
Proof.
  intros H. unfold ceil_div.
  apply Nat.lt_succ_r. apply Nat.Div0.div_lt_upper_bound. nia.
Qed.

Lemma ceil_div_pos (L : nat) : 0 < L -> 0 < ceil_div L M.
Proof.
  intros H. rewrite ceil_div_succ by assumption. lia.
Qed.

Lemma ceil_div_pred_lt (L : nat) : 0 < L -> (ceil_div L M - 1) * M < L.
Proof.
  intros H.
  destruct (Nat.lt_ge_cases ((ceil_div L M - 1) * M) L) as [|Hge]; [assumption|].
  apply ceil_div_least in Hge. pose proof (ceil_div_pos L H). lia.
Qed.

End Ceil.

Lemma firstn_skipn_add {A : Type} (a b : nat) (l : list A) :
  firstn a l ++ firstn b (skipn a l) = firstn (a + b) l.
Proof.
  revert l. induction a as [|a IH]; intros l; simpl.
  - reflexivity.
  - destruct l as [|x l]; simpl.
    + now rewrite firstn_nil.
    + now rewrite IH.
Qed.

(* ===================================================================== *)
(** ** [range] and [_chunk] in closed form *)
(* ===================================================================== *)

Section Chunk.

Context {A : Type}.
Variable M : nat.
Hypothesis M_pos : 0 < M.

(** Any fuel of at least [stop - i] yields the same values: the
    [k]-th one is [i + k * M], for [k < ceil((stop - i) / M)]. *)
Lemma range_iter_fuel (fuel i stop : nat) :
  stop - i <= fuel ->
  Py.range_iter fuel i stop M
  = map (fun k => i + k * M) (seq 0 (ceil_div (stop - i) M)).
Proof.
  revert i. induction fuel as [|fuel IH]; intros i Hfuel; simpl.
  - replace (stop - i) with 0 by lia. now rewrite ceil_div_0.
  - destruct (Nat.ltb_spec i stop) as [Hlt | Hge].
    + rewrite ceil_div_succ by lia. simpl. f_equal; [lia|].
      rewrite IH by lia. rewrite <- seq_shift, map_map.
      replace (stop - (i + M)) with (stop - i - M) by lia.
      apply map_ext. intros k. simpl. lia.
    + replace (stop - i) with 0 by lia. now rewrite ceil_div_0.
Qed.

Lemma range_closed (stop : nat) :
  Py.range 0 stop M = Ok (map (fun k => k * M) (seq 0 (ceil_div stop M))).
Proof.
  unfold Py.range. destruct (Nat.eqb_spec M 0) as [->|_]; [lia|].
  rewrite range_iter_fuel by lia. now rewrite Nat.sub_0_r.
Qed.

Lemma batch_eq (items : list A) (k : nat) :
  batch M items k = firstn M (skipn (k * M) items).
Proof.
  unfold batch, Py.slice. f_equal. lia.
Qed.

Lemma _chunk_closed (items : list A) :
  _chunk M items = Ok (batches M items).
Proof.
  unfold _chunk, batches. rewrite range_closed. now rewrite map_map.
Qed.

Lemma concat_batches (items : list A) (n : nat) :
  concat (map (batch M items) (seq 0 n)) = firstn (n * M) items.
Proof.
  induction n as [|n IH].
  - reflexivity.
  - rewrite seq_S, map_app, concat_app, IH. simpl.
    rewrite app_nil_r, batch_eq, firstn_skipn_add. f_equal. lia.
Qed.

Lemma batch_length (items : list A) (k : nat) :
  length (batch M items k) = Nat.min M (length items - k * M).
Proof.
  now rewrite batch_eq, length_firstn, length_skipn.
Qed.

End Chunk.


(* ===================================================================== *)
(** ** The batching policy *)
(* ===================================================================== *)

Lemma nth_map_seq {A : Type} (f : nat -> A) (n k : nat) (d : A) :
  k < n -> nth k (map f (seq 0 n)) d = f k.
Proof.
  intros H. rewrite (nth_indep _ d (f 0)) by now rewrite length_map, length_seq.
  rewrite (map_nth f (seq 0 n) 0 k). now rewrite seq_nth.
Qed.

(** C1. For every list [items] of length [L] and every bound [M > 0],
    [_chunk] returns a list [bs] of exactly [ceil(L / M)] batches, the
    least number [n] with [L <= n * M]: no batch when [L = 0] and never
    an empty batch. The [k]-th batch is the contiguous run of [items]
    that starts at position [k * M]; every batch but the last has
    length exactly [M], the last one between 1 and [M]; and the batches
    concatenated in order give back [items]. *)
Theorem chunk_partition {A : Type} (M : nat) (items : list A) :
  0 < M ->
  exists bs : list (list A),
    _chunk M items = Ok bs
    /\ length bs = ceil_div (length items) M
    /\ length items <= length bs * M
    /\ (forall n, length items <= n * M -> length bs <= n)
    /\ (items = [] -> bs = [])
    /\ (forall b, In b bs -> b <> [])
    /\ (forall k, k < length bs ->
                  nth k bs [] = firstn M (skipn (k * M) items))
    /\ (forall k, S k < length bs -> length (nth k bs []) = M)
    /\ (forall k, S k = length bs -> 0 < length (nth k bs []) <= M)
    /\ concat bs = items.
Proof.
  intros HM.
  set (L := length items).
  set (n := ceil_div L M).
  exists (map (batch M items) (seq 0 n)).
  assert (Hlen : length (map (batch M items) (seq 0 n)) = n)
    by now rewrite length_map, length_seq.
  assert (Hup : L <= n * M) by now apply ceil_div_upper.
  assert (Hlow : forall k, k < n -> k * M < L).
  { intros k Hk. destruct (Nat.lt_ge_cases (k * M) L) as [|Hge]; [assumption|].
    apply (ceil_div_least M HM) in Hge. fold n in Hge. lia. }
  assert (Hnth : forall k, k < n ->
            nth k (map (batch M items) (seq 0 n)) [] = batch M items k)
    by (intros; now apply nth_map_seq).
  rewrite Hlen.
  split; [now apply _chunk_closed|].
  split; [reflexivity|].
  split; [assumption|].
  split; [intros m Hm; now apply ceil_div_least|].
  split.
  { intros ->. subst n L. simpl. rewrite ceil_div_0 by assumption. reflexivity. }
  split.
  { intros b Hb Hnil. apply in_map_iff in Hb as (k & Hk & Hin).
    apply in_seq in Hin. assert (Hkn : k < n) by lia.
    apply Hlow in Hkn.
    assert (Hl : length (batch M items k) = 0) by now rewrite Hk, Hnil.
    rewrite batch_length in Hl by assumption. fold L in Hl. lia. }
  split.
  { intros k Hk. rewrite Hnth by assumption. now apply batch_eq. }
  split.
  { intros k Hk. rewrite Hnth by lia. rewrite batch_length by assumption. fold L.
    assert (S k * M < L) by (apply Hlow; lia). simpl in *. lia. }
  split.
  { intros k Hk. rewrite Hnth by lia. rewrite batch_length by assumption. fold L.
    assert (k * M < L) by (apply Hlow; lia). lia. }
  rewrite concat_batches by assumption. now apply firstn_all2.
Qed.

(* ===================================================================== *)
(** ** One iteration of the two loops *)
(* ===================================================================== *)

Section Loops.

Context {float : Type}.
Variable remote : list Request -> Request -> Reply float.

(** One iteration: the request goes out, and the verdict on the reply
    decides between the next iteration and the exception. *)
Lemma loop_cons mode url chunk rest acc w :
  loop remote mode url (chunk :: rest) acc w
  = match verdict mode (remote (sent w) (request_to w url chunk)) with
    | Ok e => loop remote mode url rest (acc ++ e) (after_post w url chunk)
    | Raise x => (Raise x, after_post w url chunk)
    end.
Proof.
  destruct mode; cbn [loop _post_loop _apost_loop];
    unfold bind, attr, http_post, request_to, after_post;
    cbn [request_for req_authorization];
    destruct (remote _ _) as [|r]; cbn [verdict]; try reflexivity.
  - unfold raise_for_status.
    destruct (is_error_status (status_code r)); [reflexivity|].
    unfold ret, Response_json.
    destruct (body r) as [| | |[e|]]; reflexivity.
  - unfold ClientResponse_json.
    destruct (json_content_type r); [|reflexivity].
    destruct (body r) as [| | |[e|]]; reflexivity.
Qed.

Lemma loop_nil mode url acc w :
  loop remote mode url [] acc w = (Ok acc, w).
Proof. destruct mode; reflexivity. Qed.

(** The replies a mode accepts. *)
Lemma verdict_ok mode (rep : Reply float) vs :
  verdict mode rep = Ok vs
  <-> exists status label,
      rep = Responded (mkResponse status label (JSONObject (Some vs)))
      /\ (mode = blocking -> is_error_status status = false)
      /\ (mode = suspendable -> label = true).
Proof.
  split.
  - destruct rep as [|[status label [| | |[e|]]]]; destruct mode; cbn;
      try discriminate;
      try (destruct (is_error_status status) eqn:E; try discriminate);
      try (destruct label eqn:L; try discriminate);
      intros [= ->]; eexists _, _; repeat split; auto; discriminate.
  - intros (status & label & -> & Hb & Hs). destruct mode; cbn.
    + now rewrite Hb.
    + now rewrite Hs.
Qed.

Lemma carries_verdict mode (rep : Reply float) vs :
  carries rep vs -> verdict mode rep = Ok vs.
Proof.
  intros (status & -> & H). apply verdict_ok. exists status, true. auto.
Qed.

Lemma traced_stop url chunk rest w (e : exn) :
  traced (A := list (vector float)) w url (chunk :: rest)
         (Raise e, after_post w url chunk).
Proof.
  split; [reflexivity|]. exists 1. cbn.
  repeat split; auto; try lia; discriminate.
Qed.

Lemma traced_go url chunk rest w (out : result (list (vector float)) * World) :
  traced (after_post w url chunk) url rest out ->
  traced w url (chunk :: rest) out.
Proof.
  intros (Hself & k & Hk & Hsent & Hok & _).
  split; [exact Hself|]. exists (S k). cbn [length firstn map].
  split; [lia|]. split.
  - rewrite Hsent. cbn [after_post sent]. now rewrite <- app_assoc.
  - split; [intros H; f_equal; auto | intros _; lia].
Qed.

Lemma loop_traced mode url chunks :
  forall acc w, traced w url chunks (loop remote mode url chunks acc w).
Proof.
  induction chunks as [|chunk rest IH]; intros acc w.
  - rewrite loop_nil. split; [reflexivity|]. exists 0. cbn.
    rewrite app_nil_r. repeat split; auto; discriminate.
  - rewrite loop_cons.
    destruct (verdict mode _); [apply traced_go, IH | apply traced_stop].
Qed.

(** A loop over accepted replies returns their lists appended and has
    sent every request. *)
Lemma loop_accepts mode url chunks :
  forall vss acc w,
    Forall2 (fun rep vs => verdict mode rep = Ok vs)
            (replies remote (sent w) (map (request_to w url) chunks)) vss ->
    loop remote mode url chunks acc w
    = (Ok (acc ++ concat vss),
       mkWorld (self w) (sent w ++ map (request_to w url) chunks)).
Proof.
  induction chunks as [|chunk rest IH]; intros vss acc w H.
  - inversion H; subst. rewrite loop_nil. cbn. rewrite !app_nil_r.
    now destruct w.
  - cbn [map replies] in H. inversion H as [|rep vs reps vss' Hv Hrest]; subst.
    rewrite loop_cons, Hv.
    rewrite (IH vss' (acc ++ vs) (after_post w url chunk) Hrest).
    cbn [after_post self sent concat map].
    now rewrite <- !app_assoc.
Qed.

(** When the remote answers every chunk with a list of vectors, in a
    response labelled JSON and without an error status, the loop
    returns these lists appended in order. *)
Lemma loop_served mode url chunks :
  forall vss acc w,
    Forall2 carries
            (replies remote (sent w) (map (request_to w url) chunks)) vss ->
    fst (loop remote mode url chunks acc w) = Ok (acc ++ concat vss).
Proof.
  intros vss acc w H.
  rewrite (loop_accepts mode url chunks vss acc w); [reflexivity|].
  eapply Forall2_impl; [|exact H]. intros rep vs. apply carries_verdict.
Qed.

(** A loop stops at the first reply that is not accepted. *)
Lemma loop_rejects mode url :
  forall done chunk rest vss acc w e,
    Forall2 (fun rep vs => verdict mode rep = Ok vs)
            (replies remote (sent w) (map (request_to w url) done)) vss ->
    verdict mode (remote (sent w ++ map (request_to w url) done)
                         (request_to w url chunk)) = Raise e ->
    loop remote mode url (done ++ chunk :: rest) acc w
    = (Raise e,
       mkWorld (self w) (sent w ++ map (request_to w url) (done ++ [chunk]))).
Proof.
  induction done as [|c done IH]; intros chunk rest vss acc w e Hdone Hfail.
  - cbn [app map] in *. rewrite app_nil_r in Hfail.
    now rewrite loop_cons, Hfail.
  - cbn [app map replies] in *.
    inversion Hdone as [|rep vs reps vss' Hv Hrest]; subst.
    rewrite loop_cons, Hv.
    rewrite (IH chunk rest vss' (acc ++ vs) (after_post w url c) e Hrest).
    + cbn [after_post self sent]. now rewrite <- app_assoc.
    + cbn [after_post self sent]. rewrite <- app_assoc. exact Hfail.
Qed.

(** A loop that returns saw accepted replies only. *)
Lemma loop_returned mode url chunks :
  forall acc w result,
    fst (loop remote mode url chunks acc w) = Ok result ->
    exists vss,
      Forall2 (fun rep vs => verdict mode rep = Ok vs)
              (replies remote (sent w) (map (request_to w url) chunks)) vss
      /\ result = acc ++ concat vss.
Proof.
  induction chunks as [|chunk rest IH]; intros acc w result H.
  - rewrite loop_nil in H. cbn in H. injection H as <-.
    exists []. split; [constructor | now rewrite app_nil_r].
  - rewrite loop_cons in H.
    destruct (verdict mode _) as [vs|x] eqn:Hv; [|discriminate].
    destruct (IH _ _ _ H) as (vss & Hrest & ->).
    exists (vs :: vss). split.
    + cbn [map replies]. constructor; assumption.
    + cbn [concat]. now rewrite app_assoc.
Qed.

(** The requests of a loop, exactly: those of the chunks whose replies
    are accepted, and of the first chunk whose reply is not. *)
Lemma loop_sent mode url chunks :
  forall acc w,
    sent (snd (loop remote mode url chunks acc w))
    = sent w
      ++ map (request_to w url)
             (firstn (S (accepted_run
                           mode
                           (replies remote (sent w)
                                    (map (request_to w url) chunks))))
                     chunks).
Proof.
  induction chunks as [|chunk rest IH]; intros acc w.
  - rewrite loop_nil. cbn. now rewrite app_nil_r.
  - rewrite loop_cons. cbn [map replies accepted_run]. unfold accepted.
    destruct (verdict mode _) as [vs|x]; cbn [is_ok].
    + rewrite IH. cbn [after_post sent self firstn map].
      now rewrite <- app_assoc.
    + reflexivity.
Qed.

Lemma accepted_run_all mode (reps : list (Reply float)) :
  (forall rep, In rep reps -> accepted mode rep = true) ->
  accepted_run mode reps = length reps.
Proof.
  induction reps as [|rep rest IH]; intros H; cbn.
  - reflexivity.
  - rewrite (H rep) by now left. f_equal. apply IH.
    intros r Hr. apply H. now right.
Qed.

Lemma Forall2_accepted mode (reps : list (Reply float)) vss :
  Forall2 (fun rep vs => verdict mode rep = Ok vs) reps vss ->
  forall rep, In rep reps -> accepted mode rep = true.
Proof.
  induction 1 as [|rep vs reps vss Hv _ IH]; intros r [].
  - subst r. unfold accepted. now rewrite Hv.
  - now apply IH.
Qed.

Lemma length_replies (h : list Request) (reqs : list Request) :
  length (replies remote h reqs) = length reqs.
Proof.
  revert h. induction reqs as [|r reqs IH]; intros h; cbn; auto.
Qed.

(** The accumulator only collects: a loop from [acc] is the loop from
    the empty list with [acc] put in front of its result. *)
Lemma loop_acc mode url chunks :
  forall acc w,
    loop remote mode url chunks acc w
    = match loop remote mode url chunks [] w with
      | (Ok r, w') => (Ok (acc ++ r), w')
      | (Raise e, w') => (Raise e, w')
      end.
Proof.
  induction chunks as [|chunk rest IH]; intros acc w.
  - rewrite !loop_nil. now rewrite app_nil_r.
  - rewrite !loop_cons.
    destruct (verdict mode _) as [vs|x]; [|reflexivity].
    rewrite (IH (acc ++ vs)), (IH ([] ++ vs)).
    destruct (loop remote mode url rest [] _) as [[r|e] w']; [|reflexivity].
    cbn [app]. now rewrite app_assoc.
Qed.

(** A loop over two runs of chunks is the loop over the first followed,
    if it returns, by the loop over the second. *)
Lemma loop_app mode url cs1 cs2 :
  forall acc w,
    loop remote mode url (cs1 ++ cs2) acc w
    = match loop remote mode url cs1 acc w with
      | (Ok acc', w') => loop remote mode url cs2 acc' w'
      | (Raise e, w') => (Raise e, w')
      end.
Proof.
  induction cs1 as [|chunk rest IH]; intros acc w.
  - now rewrite loop_nil.
  - cbn [app]. rewrite !loop_cons.
    destruct (verdict mode _) as [vs|x]; [apply IH | reflexivity].
Qed.



End Loops.

(* ===================================================================== *)
(** ** From the methods to the loops *)
(* ===================================================================== *)

Section Methods.

Context {float : Type}.
Variable remote : list Request -> Request -> Reply float.
Variable M : nat.
Hypothesis M_pos : 0 < M.

Lemma embed_unfold mode kind inputs w :
  embed remote M mode kind inputs w
  = post remote M mode
         (map (String.append (prefix_of kind (self w))) inputs) w.
Proof. destruct mode, kind; reflexivity. Qed.

Lemma post_unfold mode data w :
  post remote M mode data w
  = loop remote mode (req_url (request_for (self w) []))
         (batches M data) [] w.
Proof.
  destruct mode; cbn [post loop];
    [unfold _post | unfold _apost];
    unfold bind, get_url, attr, ret, lift;
    rewrite (_chunk_closed M M_pos); reflexivity.
Qed.

Lemma request_to_for w chunks :
  map (request_to w (req_url (request_for (self w) []))) chunks
  = map (request_for (self w)) chunks.
Proof. reflexivity. Qed.

Lemma length_batches {A : Type} (data : list A) :
  length (batches M data) = ceil_div (length data) M.
Proof. unfold batches. now rewrite length_map, length_seq. Qed.

Lemma issued_app w w' (reqs : list Request) :
  sent w' = sent w ++ reqs -> issued w w' = reqs.
Proof.
  intros H. unfold issued. rewrite H.
  rewrite skipn_app, skipn_all, Nat.sub_diag. reflexivity.
Qed.

(** Every run of [embed] is traced over the batches of the prefixed
    inputs. *)
Lemma embed_traced mode kind inputs w :
  traced w (req_url (request_for (self w) []))
         (batches M (map (String.append (prefix_of kind (self w))) inputs))
         (embed remote M mode kind inputs w).
Proof.
  rewrite embed_unfold, post_unfold. apply loop_traced.
Qed.

End Methods.

(* ===================================================================== *)
(** ** Positions inside a list of batches *)
(* ===================================================================== *)

Section Positions.

Context {A : Type}.
Variable M : nat.
Hypothesis M_pos : 0 < M.

(** In a concatenation of blocks of length [M] (the block that holds
    position [i] may be shorter), position [i] is position [i mod M]
    of block [i / M]. *)
Lemma nth_error_concat_blocks (bss : list (list A)) :
  forall i,
    (forall k, k < i / M -> length (nth k bss []) = M) ->
    i mod M < length (nth (i / M) bss []) ->
    nth_error (concat bss) i = nth_error (nth (i / M) bss []) (i mod M).
Proof.
  induction bss as [|b rest IH]; intros i Hfull Hin.
  - destruct (i / M); cbn in Hin; lia.
  - pose proof (Nat.div_mod_eq i M) as E.
    pose proof (Nat.mod_upper_bound i M ltac:(lia)) as B.
    destruct (i / M) as [|q] eqn:Q.
    + cbn [nth concat] in *. rewrite Nat.mul_0_r in E. cbn in E.
      rewrite <- E in *. now apply nth_error_app1.
    + assert (Hb : length b = M) by (apply (Hfull 0); lia).
      assert (Hq : (i - M) / M = q).
      { symmetry. apply (Nat.div_unique _ _ _ (i mod M)); [assumption|nia]. }
      assert (Hr : (i - M) mod M = i mod M).
      { symmetry. apply (Nat.mod_unique _ _ q); [assumption|nia]. }
      cbn [nth concat]. rewrite nth_error_app2 by nia.
      rewrite Hb, <- Hr, <- Hq. apply IH.
      * intros k Hk. apply (Hfull (S k)). lia.
      * now rewrite Hq, Hr.
Qed.

Lemma nth_batches (data : list A) (k : nat) :
  k * M < length data -> nth k (batches M data) [] = batch M data k.
Proof.
  intros Hk. unfold batches. apply nth_map_seq.
  destruct (Nat.lt_ge_cases k (ceil_div (length data) M)) as [|Hge];
    [assumption|].
  pose proof (ceil_div_upper M M_pos (length data)). nia.
Qed.

(** The coordinates [(i / M, i mod M)] of a position [i] of [data]
    satisfy the side conditions of [nth_error_concat_blocks] in
    [batches M data]. *)
Lemma batches_blocks (data : list A) (i : nat) :
  i < length data ->
  (forall k, k < i / M -> length (nth k (batches M data) []) = M)
  /\ i mod M < length (nth (i / M) (batches M data) []).
Proof.
  intros Hi.
  pose proof (Nat.div_mod_eq i M) as E.
  pose proof (Nat.mod_upper_bound i M ltac:(lia)) as B.
  split.
  - intros k Hk. rewrite nth_batches by nia.
    rewrite (batch_length M M_pos). nia.
  - rewrite nth_batches by nia. rewrite (batch_length M M_pos). nia.
Qed.

Lemma concat_batches_all (data : list A) : concat (batches M data) = data.
Proof.
  unfold batches. rewrite (concat_batches M M_pos).
  apply firstn_all2. now apply ceil_div_upper.
Qed.

End Positions.

Lemma Forall2_nth_length {A B : Type} (xss : list (list A))
      (yss : list (list B)) :
  Forall2 (fun xs ys => length ys = length xs) xss yss ->
  forall k, length (nth k yss []) = length (nth k xss []).
Proof.
  induction 1 as [|xs ys xss yss H _ IH]; intros k.
  - now destruct k.
  - destruct k; cbn; auto.
Qed.

Lemma length_concat_Forall2 {A B : Type} (xss : list (list A))
      (yss : list (list B)) :
  Forall2 (fun xs ys => length ys = length xs) xss yss ->
  length (concat yss) = length (concat xss).
Proof.
  induction 1 as [|xs ys xss yss H _ IH]; cbn.
  - reflexivity.
  - rewrite !length_app. now rewrite H, IH.
Qed.

(* ===================================================================== *)
(** ** Results of [embed] *)
(* ===================================================================== *)

(** C2. In both modes and for both kinds: when the remote answers the
    request of every batch of the prefixed inputs with a list of vectors
    ([vss], one list per batch, each in a response labelled JSON and
    without an error status) as long as the batch, [embed] returns the concatenation of these lists. The
    result has the length of [inputs], and its [i]-th vector is the one
    the remote returned at position [i mod M] of its reply to batch
    [i / M], which is where the [i]-th prefixed input was submitted. *)
Theorem embed_aligned {float : Type}
        (remote : list Request -> Request -> Reply float) (M : nat)
        (mode : Mode) (kind : Kind) (inputs : list string) (w : World)
        (vss : list (list (vector float))) :
  0 < M ->
  Forall2 carries
          (replies remote (sent w)
                   (map (request_for (self w))
                        (batches M (map (String.append (prefix_of kind (self w)))
                                        inputs))))
          vss ->
  Forall2 (fun chunk vs => length vs = length chunk)
          (batches M (map (String.append (prefix_of kind (self w))) inputs))
          vss ->
  exists result,
    fst (embed remote M mode kind inputs w) = Ok result
    /\ result = concat vss
    /\ length result = length inputs
    /\ forall i, i < length inputs ->
         exists v input,
           nth_error result i = Some v
           /\ nth_error (nth (i / M) vss []) (i mod M) = Some v
           /\ nth_error inputs i = Some input
           /\ nth_error
                (nth (i / M)
                     (batches M (map (String.append (prefix_of kind (self w)))
                                     inputs)) [])
                (i mod M)
              = Some (String.append (prefix_of kind (self w)) input).
Proof.
  intros HM Hserved Hlen.
  set (prefixed := map (String.append (prefix_of kind (self w))) inputs) in *.
  assert (HL : length prefixed = length inputs) by apply length_map.
  assert (Hsize : length (concat vss) = length inputs).
  { rewrite (length_concat_Forall2 _ _ Hlen).
    now rewrite (concat_batches_all M HM). }
  exists (concat vss).
  split.
  { rewrite embed_unfold, (post_unfold remote M HM).
    fold prefixed.
    now rewrite (loop_served remote mode _ _ vss [] w). }
  split; [reflexivity|]. split; [exact Hsize|].
  intros i Hi.
  destruct (batches_blocks M HM prefixed i ltac:(lia)) as (Hfull & Hin).
  destruct (nth_error (concat vss) i) as [v|] eqn:Ev.
  2:{ apply nth_error_None in Ev. lia. }
  destruct (nth_error inputs i) as [input|] eqn:Ei.
  2:{ apply nth_error_None in Ei. lia. }
  exists v, input. split; [reflexivity|].
  split; [|split; [reflexivity|]].
  - rewrite <- Ev. symmetry. apply (nth_error_concat_blocks M HM).
    + intros k Hk. rewrite (Forall2_nth_length _ _ Hlen). now apply Hfull.
    + now rewrite (Forall2_nth_length _ _ Hlen).
  - rewrite <- (nth_error_concat_blocks M HM _ i Hfull Hin).
    rewrite (concat_batches_all M HM). unfold prefixed.
    now apply map_nth_error.
Qed.

(* ===================================================================== *)
(** ** Requests of [embed] *)
(* ===================================================================== *)

Lemma map_req_inputs_request_for (c : DeepInfraEmbeddingModel)
      (chunks : list (list string)) :
  map req_inputs (map (request_for c) chunks) = chunks.
Proof.
  rewrite map_map. cbn [request_for req_inputs]. apply map_id.
Qed.

Lemma firstn_seq (k start len : nat) :
  firstn k (seq start len) = seq start (Nat.min k len).
Proof.
  revert start len. induction k as [|k IH]; intros start [|len]; cbn;
    try reflexivity.
  now rewrite IH.
Qed.

Lemma firstn_batches {A : Type} (M : nat) (data : list A) (k : nat) :
  0 < M ->
  concat (firstn k (batches M data))
  = firstn (Nat.min k (ceil_div (length data) M) * M) data.
Proof.
  intros HM. unfold batches.
  rewrite firstn_map, firstn_seq. now apply concat_batches.
Qed.

Lemma append_empty_prefix (inputs : list string) :
  map (String.append "") inputs = inputs.
Proof.
  rewrite <- (map_id inputs) at 2. apply map_ext. reflexivity.
Qed.

Lemma concat_firstn_batches {A : Type} (M : nat) (data : list A) (k : nat) :
  0 < M -> concat (firstn k (batches M data)) = firstn (k * M) data.
Proof.
  intros HM. rewrite (firstn_batches M data k HM).
  destruct (Nat.le_ge_cases k (ceil_div (length data) M)) as [Hle|Hge].
  - now rewrite Nat.min_l.
  - rewrite Nat.min_r by assumption.
    pose proof (ceil_div_upper M HM (length data)).
    rewrite !firstn_all2 by nia. reflexivity.
Qed.

(** The requests of a call of [embed], exactly. *)
Lemma embed_issued {float : Type}
      (remote : list Request -> Request -> Reply float) (M : nat)
      (mode : Mode) (kind : Kind) (inputs : list string) (w : World) :
  0 < M ->
  issued w (snd (embed remote M mode kind inputs w))
  = map (request_for (self w))
        (firstn (S (accepted_run
                      mode
                      (replies remote (sent w)
                               (map (request_for (self w))
                                    (batches M (map (String.append
                                                       (prefix_of kind (self w)))
                                                    inputs))))))
                (batches M (map (String.append (prefix_of kind (self w)))
                                inputs))).
Proof.
  intros HM. rewrite embed_unfold, (post_unfold remote M HM).
  apply issued_app. rewrite loop_sent. reflexivity.
Qed.

(** When every reply is accepted, the run of accepted replies covers
    all batches. *)
Lemma firstn_accepted_all {float : Type} {A : Type} (mode : Mode)
      (reps : list (Reply float)) (l : list A) :
  length reps = length l ->
  (forall rep, In rep reps -> accepted mode rep = true) ->
  firstn (S (accepted_run mode reps)) l = l.
Proof.
  intros Hlen Hall. rewrite (accepted_run_all mode reps Hall).
  apply firstn_all2. lia.
Qed.

(** A call that returned had every reply accepted. *)
Lemma embed_returned_accepted {float : Type}
      (remote : list Request -> Request -> Reply float) (M : nat)
      (mode : Mode) (kind : Kind) (inputs : list string) (w : World) :
  0 < M ->
  is_ok (fst (embed remote M mode kind inputs w)) = true ->
  forall rep,
    In rep (replies remote (sent w)
                    (map (request_for (self w))
                         (batches M (map (String.append
                                            (prefix_of kind (self w)))
                                         inputs)))) ->
    accepted mode rep = true.
Proof.
  intros HM Hok. rewrite embed_unfold, (post_unfold remote M HM) in Hok.
  destruct (fst (loop remote mode _ _ [] w)) as [result|e] eqn:E;
    [|discriminate].
  destruct (loop_returned remote mode _ _ _ _ _ E) as (vss & Hall & _).
  rewrite request_to_for in Hall.
  exact (Forall2_accepted mode _ vss Hall).
Qed.

(** C6. In both modes and for both kinds, [embed] first prepends the
    prefix of the kind to every input and hands the prefixed list to
    the POST routine. The requests it sends carry, batch by batch and
    in order, the prefixed inputs: those of every batch whose reply the
    mode accepts and of the first batch whose reply it does not, that
    is the first [(a + 1) * M] prefixed inputs when [a] replies are
    accepted in a row. When every reply is accepted, and whenever the
    call returns, the strings submitted are exactly the prefixed
    inputs, in order. With an empty prefix the prefixed inputs are the
    inputs. *)
Theorem embed_submits_prefixed {float : Type}
        (remote : list Request -> Request -> Reply float) (M : nat)
        (mode : Mode) (kind : Kind) (inputs : list string) (w : World) :
  0 < M ->
  let prefixed := map (String.append (prefix_of kind (self w))) inputs in
  let out := embed remote M mode kind inputs w in
  let reps := replies remote (sent w)
                      (map (request_for (self w)) (batches M prefixed)) in
  add_prefix kind inputs w = (Ok prefixed, w)
  /\ out = post remote M mode prefixed w
  /\ map req_inputs (issued w (snd out))
     = firstn (S (accepted_run mode reps)) (batches M prefixed)
  /\ submitted w (snd out) = firstn (S (accepted_run mode reps) * M) prefixed
  /\ ((forall rep, In rep reps -> accepted mode rep = true) ->
      submitted w (snd out) = prefixed)
  /\ (is_ok (fst out) = true -> submitted w (snd out) = prefixed)
  /\ (prefix_of kind (self w) = "" -> prefixed = inputs).
Proof.
  intros HM prefixed out reps.
  assert (Hin : map req_inputs (issued w (snd out))
                = firstn (S (accepted_run mode reps)) (batches M prefixed)).
  { subst out. rewrite (embed_issued remote M mode kind inputs w HM).
    apply map_req_inputs_request_for. }
  assert (Hsub : submitted w (snd out)
                 = firstn (S (accepted_run mode reps) * M) prefixed).
  { unfold submitted. rewrite Hin. now apply concat_firstn_batches. }
  assert (Hall : (forall rep, In rep reps -> accepted mode rep = true) ->
                 submitted w (snd out) = prefixed).
  { intros H. unfold submitted. rewrite Hin.
    rewrite (firstn_accepted_all mode reps (batches M prefixed)).
    - now apply concat_batches_all.
    - subst reps. now rewrite length_replies, length_map.
    - exact H. }
  split; [destruct kind; reflexivity|].
  split; [apply embed_unfold|].
  split; [exact Hin|]. split; [exact Hsub|]. split; [exact Hall|].
  split.
  - intros Hok. apply Hall.
    exact (embed_returned_accepted remote M mode kind inputs w HM Hok).
  - intros E. unfold prefixed. rewrite E. apply append_empty_prefix.
Qed.

(** C7. In both modes and for both kinds, [embed] over [N] inputs with
    the bound [M] sends its requests one per batch, in batch order,
    each carrying exactly the strings of its batch: a request for every
    batch whose reply the mode accepts and for the first batch whose
    reply it does not, and no other. When every reply is accepted, and
    whenever the call returns, these are exactly [ceil(N / M)]
    requests, the [i]-th one carrying the [i]-th batch. *)
Theorem embed_calls {float : Type}
        (remote : list Request -> Request -> Reply float) (M : nat)
        (mode : Mode) (kind : Kind) (inputs : list string) (w : World) :
  0 < M ->
  let prefixed := map (String.append (prefix_of kind (self w))) inputs in
  let out := embed remote M mode kind inputs w in
  let reps := replies remote (sent w)
                      (map (request_for (self w)) (batches M prefixed)) in
  issued w (snd out)
  = map (request_for (self w))
        (firstn (S (accepted_run mode reps)) (batches M prefixed))
  /\ ((forall rep, In rep reps -> accepted mode rep = true) ->
      issued w (snd out) = map (request_for (self w)) (batches M prefixed)
      /\ length (issued w (snd out)) = ceil_div (length inputs) M
      /\ forall i, i < ceil_div (length inputs) M ->
           nth_error (map req_inputs (issued w (snd out))) i
           = Some (batch M prefixed i))
  /\ (is_ok (fst out) = true ->
      issued w (snd out) = map (request_for (self w)) (batches M prefixed)
      /\ length (issued w (snd out)) = ceil_div (length inputs) M).
Proof.
  intros HM prefixed out reps.
  assert (HN : length (batches M prefixed) = ceil_div (length inputs) M).
  { rewrite length_batches. unfold prefixed. now rewrite length_map. }
  assert (Hexact : issued w (snd out)
                   = map (request_for (self w))
                         (firstn (S (accepted_run mode reps))
                                 (batches M prefixed)))
    by apply (embed_issued remote M mode kind inputs w HM).
  assert (Hall : (forall rep, In rep reps -> accepted mode rep = true) ->
                 issued w (snd out)
                 = map (request_for (self w)) (batches M prefixed)).
  { intros H. rewrite Hexact. f_equal.
    apply (firstn_accepted_all mode reps); [|exact H].
    subst reps. now rewrite length_replies, length_map. }
  split; [exact Hexact|]. split.
  - intros H. specialize (Hall H). split; [exact Hall|]. split.
    + now rewrite Hall, length_map.
    + intros i Hi. rewrite Hall, map_req_inputs_request_for.
      unfold batches. unfold prefixed at 2. rewrite length_map.
      rewrite nth_error_map, nth_error_seq.
      destruct (Nat.ltb_spec i (ceil_div (length inputs) M)); [reflexivity|lia].
  - intros Hok.
    pose proof (embed_returned_accepted remote M mode kind inputs w HM Hok)
      as H.
    specialize (Hall H). split; [exact Hall|].
    now rewrite Hall, length_map.
Qed.

(* ===================================================================== *)
(** ** Single inputs *)
(* ===================================================================== *)

(** C8. In both modes and for both kinds, the single-input method runs
    the batched method on the one-element list and returns the first
    element of its result: the two leave the same state, the single one
    raises what the batched one raises, and otherwise returns element 0
    of the batched result ([IndexError] if that list is empty). *)
Theorem embed_one_is_first {float : Type}
        (remote : list Request -> Request -> Reply float) (M : nat)
        (mode : Mode) (kind : Kind) (input : string) (w : World) :
  fst (embed_one remote M mode kind input w)
  = match fst (embed remote M mode kind [input] w) with
    | Ok result => Py.getitem result 0
    | Raise e => Raise e
    end
  /\ snd (embed_one remote M mode kind input w)
     = snd (embed remote M mode kind [input] w).
Proof.
  destruct mode, kind; cbn [embed_one embed];
    unfold _get_query_embedding, _get_query_embeddings,
      _aget_query_embedding, _aget_query_embeddings,
      _get_text_embedding, _get_text_embeddings,
      _aget_text_embedding, _aget_text_embeddings,
      _add_query_prefix, _add_text_prefix, bind, attr, ret, lift;
    match goal with
    | |- context [?post remote M ?data w] =>
        destruct (post remote M data w) as [[result|e] w']
    end; split; reflexivity.
Qed.

(* ===================================================================== *)
(** ** Frame and the normalize flag *)
(* ===================================================================== *)

Section Invariance.

Context {float : Type}.
Variable remote : list Request -> Request -> Reply float.
Variable M : nat.

Lemma frames_ret {A : Type} (a : A) : frames (ret a).
Proof. intros w. reflexivity. Qed.

Lemma frames_raise {A : Type} (e : exn) : frames (raise (A := A) e).
Proof. intros w. reflexivity. Qed.

Lemma frames_lift {A : Type} (r : result A) : frames (lift r).
Proof. intros w. reflexivity. Qed.

Lemma frames_attr {A : Type} (field : DeepInfraEmbeddingModel -> A) :
  frames (attr field).
Proof. intros w. reflexivity. Qed.

Lemma frames_http_post url chunk authorization content_type :
  frames (http_post remote url chunk authorization content_type).
Proof. intros w. unfold http_post. now destruct (remote _ _). Qed.

Lemma frames_raise_for_status (r : Response float) :
  frames (raise_for_status r).
Proof.
  unfold raise_for_status. destruct (is_error_status _);
    [apply frames_raise | apply frames_ret].
Qed.

Lemma frames_Response_json (r : Response float) : frames (Response_json r).
Proof.
  unfold Response_json.
  destruct (body r); first [apply frames_raise | apply frames_ret].
Qed.

Lemma frames_ClientResponse_json (r : Response float) :
  frames (ClientResponse_json r).
Proof.
  unfold ClientResponse_json.
  destruct (json_content_type r); [|apply frames_raise].
  destruct (body r); first [apply frames_raise | apply frames_ret].
Qed.

Lemma frames_getitem_embeddings (d : Decoded float) :
  frames (getitem_embeddings d).
Proof.
  destruct d as [|[e|]]; first [apply frames_raise | apply frames_ret].
Qed.

Lemma frames_bind {A B : Type} (c : Action A) (k : A -> Action B) :
  frames c -> (forall a, frames (k a)) -> frames (bind c k).
Proof.
  intros Hc Hk w. unfold bind. specialize (Hc w).
  destruct (c w) as [[a|e] w']; cbn in *; [now rewrite Hk | exact Hc].
Qed.

Lemma inert_ret {A : Type} (a : A) : inert (ret a).
Proof. intros b w. reflexivity. Qed.

Lemma inert_raise {A : Type} (e : exn) : inert (raise (A := A) e).
Proof. intros b w. reflexivity. Qed.

Lemma inert_lift {A : Type} (r : result A) : inert (lift r).
Proof. intros b w. reflexivity. Qed.

(** Reading any attribute but [_normalize]. *)
Lemma inert_attr {A : Type} (field : DeepInfraEmbeddingModel -> A) :
  (forall b c, field (with_normalize b c) = field c) -> inert (attr field).
Proof. intros H b w. unfold attr. cbn. now rewrite H. Qed.

Lemma inert_http_post url chunk authorization content_type :
  inert (http_post remote url chunk authorization content_type).
Proof. intros b w. unfold http_post. cbn. now destruct (remote _ _). Qed.

Lemma inert_raise_for_status (r : Response float) :
  inert (raise_for_status r).
Proof.
  unfold raise_for_status. destruct (is_error_status _);
    [apply inert_raise | apply inert_ret].
Qed.

Lemma inert_Response_json (r : Response float) : inert (Response_json r).
Proof.
  unfold Response_json.
  destruct (body r); first [apply inert_raise | apply inert_ret].
Qed.

Lemma inert_ClientResponse_json (r : Response float) :
  inert (ClientResponse_json r).
Proof.
  unfold ClientResponse_json.
  destruct (json_content_type r); [|apply inert_raise].
  destruct (body r); first [apply inert_raise | apply inert_ret].
Qed.

Lemma inert_getitem_embeddings (d : Decoded float) :
  inert (getitem_embeddings d).
Proof.
  destruct d as [|[e|]]; first [apply inert_raise | apply inert_ret].
Qed.

Lemma inert_bind {A B : Type} (c : Action A) (k : A -> Action B) :
  inert c -> (forall a, inert (k a)) -> inert (bind c k).
Proof.
  intros Hc Hk b w. unfold bind. rewrite Hc.
  destruct (c w) as [[a|e] w']; cbn; [apply Hk | reflexivity].
Qed.

Create HintDb frame.
Create HintDb inert.

Hint Resolve frames_ret frames_raise frames_lift frames_attr
     frames_http_post frames_raise_for_status frames_Response_json
     frames_ClientResponse_json
     frames_getitem_embeddings : frame.
Hint Resolve inert_ret inert_raise inert_lift inert_http_post
     inert_raise_for_status inert_Response_json inert_ClientResponse_json
     inert_getitem_embeddings : inert.
Hint Extern 1 (inert (attr _)) =>
       (apply inert_attr; intros; reflexivity) : inert.

Hint Resolve frames_bind : frame.
Hint Resolve inert_bind : inert.

(** Go through a method body one [bind] at a time. *)
Ltac frame_binds := auto 30 with frame.
Ltac inert_binds := auto 30 with inert.

Lemma frames_post_loop url chunks :
  forall acc, frames (_post_loop remote url chunks acc).
Proof.
  induction chunks as [|chunk rest IH]; intros acc; cbn [_post_loop];
    frame_binds.
Qed.

Lemma frames_apost_loop url chunks :
  forall acc, frames (_apost_loop remote url chunks acc).
Proof.
  induction chunks as [|chunk rest IH]; intros acc; cbn [_apost_loop];
    frame_binds.
Qed.

Lemma inert_post_loop url chunks :
  forall acc, inert (_post_loop remote url chunks acc).
Proof.
  induction chunks as [|chunk rest IH]; intros acc; cbn [_post_loop];
    inert_binds.
Qed.

Lemma inert_apost_loop url chunks :
  forall acc, inert (_apost_loop remote url chunks acc).
Proof.
  induction chunks as [|chunk rest IH]; intros acc; cbn [_apost_loop];
    inert_binds.
Qed.

Hint Resolve frames_post_loop frames_apost_loop : frame.
Hint Resolve inert_post_loop inert_apost_loop : inert.

Lemma frames_post : forall data, frames (_post remote M data).
Proof. intros data. unfold _post, get_url. frame_binds. Qed.

Lemma frames_apost : forall data, frames (_apost remote M data).
Proof. intros data. unfold _apost, get_url. frame_binds. Qed.

Lemma inert_post : forall data, inert (_post remote M data).
Proof. intros data. unfold _post, get_url. inert_binds. Qed.

Lemma inert_apost : forall data, inert (_apost remote M data).
Proof. intros data. unfold _apost, get_url. inert_binds. Qed.

Hint Resolve frames_post frames_apost : frame.
Hint Resolve inert_post inert_apost : inert.

Ltac open_method :=
  cbn [exec add_prefix post embed embed_one];
  unfold get_url,
    _get_query_embedding, _aget_query_embedding,
    _get_text_embedding, _aget_text_embedding,
    _get_query_embeddings, _aget_query_embeddings,
    _get_text_embeddings, _aget_text_embeddings,
    _add_query_prefix, _add_text_prefix.

Lemma frames_exec {T : Type} (op : Operation T) :
  frames (exec remote M op).
Proof.
  destruct op as [|kind inputs|mode data|mode kind inputs|mode kind input];
    try destruct mode; try destruct kind; open_method; frame_binds.
Qed.

Lemma inert_exec {T : Type} (op : Operation T) :
  inert (exec remote M op).
Proof.
  destruct op as [|kind inputs|mode data|mode kind inputs|mode kind input];
    try destruct mode; try destruct kind; open_method; inert_binds.
Qed.

End Invariance.

Lemma with_normalize_only (c1 c2 : DeepInfraEmbeddingModel) :
  _model_id c1 = _model_id c2 ->
  _api_token c1 = _api_token c2 ->
  _query_prefix c1 = _query_prefix c2 ->
  _text_prefix c1 = _text_prefix c2 ->
  c1 = with_normalize (_normalize c1) c2.
Proof.
  destruct c1, c2. cbn. intros -> -> -> ->. reflexivity.
Qed.

(** C9. Two clients that differ at most in the normalize flag cannot be
    told apart by any operation (URL construction, prefixing, the POST
    routines, the batched and the single embedding methods, blocking or
    suspendable, query or text): on the same wire history and against
    the same remote, the operation returns or raises the same and sends
    the same requests. *)
Theorem normalize_inert {float : Type}
        (remote : list Request -> Request -> Reply float) (M : nat)
        {T : Type} (op : Operation T)
        (c1 c2 : DeepInfraEmbeddingModel) (h : list Request) :
  _model_id c1 = _model_id c2 ->
  _api_token c1 = _api_token c2 ->
  _query_prefix c1 = _query_prefix c2 ->
  _text_prefix c1 = _text_prefix c2 ->
  fst (exec remote M op (mkWorld c1 h)) = fst (exec remote M op (mkWorld c2 h))
  /\ sent (snd (exec remote M op (mkWorld c1 h)))
     = sent (snd (exec remote M op (mkWorld c2 h))).
Proof.
  intros H1 H2 H3 H4.
  rewrite (with_normalize_only c1 c2 H1 H2 H3 H4).
  change (mkWorld (with_normalize (_normalize c1) c2) h)
    with (renorm (_normalize c1) (mkWorld c2 h)).
  rewrite (inert_exec remote M op). cbn. split; reflexivity.
Qed.

(** C10. No operation changes the client object: after any call, whether
    it returned or raised, the five attributes hold what they held
    before it; and after any sequence of calls on a constructed client
    they hold what the constructor stored. *)
Theorem configuration_unchanged {float : Type}
        (remote : list Request -> Request -> Reply float) (M : nat) :
  (forall (T : Type) (op : Operation T) (w : World),
      let w' := snd (exec remote M op w) in
      self w' = self w
      /\ _model_id (self w') = _model_id (self w)
      /\ _normalize (self w') = _normalize (self w)
      /\ _api_token (self w') = _api_token (self w)
      /\ _query_prefix (self w') = _query_prefix (self w)
      /\ _text_prefix (self w') = _text_prefix (self w))
  /\ (forall environ model_id normalize api_token query_prefix text_prefix
             (calls : list call) (h : list Request),
         self (run_all remote M calls
                       (mkWorld (__init__ environ model_id normalize api_token
                                          query_prefix text_prefix) h))
         = __init__ environ model_id normalize api_token
                    query_prefix text_prefix).
Proof.
  assert (Hone : forall (T : Type) (op : Operation T) (w : World),
             self (snd (exec remote M op w)) = self w)
    by (intros; apply frames_exec).
  split.
  - intros T op w w'. subst w'. rewrite Hone. repeat split.
  - intros environ model_id normalize api_token query_prefix text_prefix calls.
    generalize (__init__ environ model_id normalize api_token
                         query_prefix text_prefix) as c.
    intros c h.
    change c with (self (mkWorld c h)) at 2.
    generalize (mkWorld c h) as w.
    induction calls as [|[T op] calls IH]; intros w; cbn [run_all fold_left].
    + reflexivity.
    + unfold run_all in IH. rewrite IH. cbn [projT2]. apply Hone.
Qed.

(* ===================================================================== *)
(** ** Failures and the two modes *)
(* ===================================================================== *)

(** X1. The blocking [embed] aborts at the first batch whose POST fails
    or is answered with an error status (400 to 599): the exception
    surfaces instead of a result, the failing request was sent once and
    is the last one sent. *)
Lemma blocking_embed_aborts {float : Type}
      (remote : list Request -> Request -> Reply float) (M : nat)
      (kind : Kind) (inputs : list string) (w : World)
      (done : list (list string)) (chunk : list string)
      (rest : list (list string)) (vss : list (list (vector float)))
      (e : exn) :
  0 < M ->
  batches M (map (String.append (prefix_of kind (self w))) inputs)
  = done ++ chunk :: rest ->
  Forall2 carries
          (replies remote (sent w) (map (request_for (self w)) done)) vss ->
  match remote (sent w ++ map (request_for (self w)) done)
               (request_for (self w) chunk) with
  | NoResponse => e = TransportError
  | Responded r =>
      is_error_status (status_code r) = true /\ e = HTTPError (status_code r)
  end ->
  embed remote M blocking kind inputs w
  = (Raise e,
     mkWorld (self w)
             (sent w ++ map (request_for (self w)) (done ++ [chunk]))).
Proof.
  intros HM Hsplit Hserved Hfail.
  rewrite embed_unfold, (post_unfold remote M HM), Hsplit.
  apply (loop_rejects remote blocking _ done chunk rest vss).
  - eapply Forall2_impl; [|exact Hserved].
    intros rep vs. apply carries_verdict.
  - change (request_to w (req_url (request_for (self w) [])) chunk)
      with (request_for (self w) chunk).
    rewrite request_to_for.
    destruct (remote _ _) as [|r]; [now subst e|].
    destruct Hfail as (Hstatus & ->). cbn [verdict]. now rewrite Hstatus.
Qed.


(* ===================================================================== *)
(** ** Where the code departs from its description *)
(* ===================================================================== *)

(** What the constructor stores as token: the environment variable when
    it is set, the argument otherwise. *)
Lemma init_token_resolution environ model_id normalize api_token
      query_prefix text_prefix :
  _api_token (__init__ environ model_id normalize api_token
                       query_prefix text_prefix)
  = match environ ENV_VARIABLE with
    | Some from_env => Some from_env
    | None => api_token
    end.
Proof. reflexivity. Qed.

(** C4. Constructed with the explicit token ["explicit-token"] in an
    environment where the variable is set to ["token-of-env"], the
    client stores the token of the environment, not the explicit one;
    the explicit token is stored when the variable is not set. *)
Theorem init_token_prefers_environment :
  _api_token (__init__ Stub.token_environ DEFAULT_MODEL_ID false
                       (Some "explicit-token") "" "")
  = Some "token-of-env"
  /\ _api_token (__init__ Stub.no_environ DEFAULT_MODEL_ID false
                          (Some "explicit-token") "" "")
     = Some "explicit-token"
  /\ _api_token (__init__ Stub.no_environ DEFAULT_MODEL_ID false None "" "")
     = None.
Proof. repeat split. Qed.

(** C3. Three batches, the remote answering the second with status
    500: the blocking [_post] raises there, after two requests; the
    suspendable [_apost] goes on, sends the third request and returns
    the vectors of all three replies. *)
Theorem apost_continues_after_error_status :
  _post Stub.second_fails 2 Stub.five Stub.fresh
  = (Raise (HTTPError 500),
     mkWorld Stub.client
             (map (request_for Stub.client) [["a"; "b"]; ["c"; "d"]]))
  /\ _apost Stub.second_fails 2 Stub.five Stub.fresh
     = (Ok [[1]; [1]; [1]; [1]; [1]],
        mkWorld Stub.client
                (map (request_for Stub.client)
                     [["a"; "b"]; ["c"; "d"]; ["e"]])).
Proof. split; vm_compute; reflexivity. Qed.

(** C5. Same client, same input, same remote, which answers with
    status 500 and a body that holds the embeddings: the blocking
    methods raise and the suspendable methods return a result. *)
Theorem modes_diverge_on_error_status :
  forall kind : Kind,
    fst (embed Stub.always_500 MAX_BATCH_SIZE blocking kind ["a"] Stub.fresh)
    = Raise (HTTPError 500)
    /\ fst (embed Stub.always_500 MAX_BATCH_SIZE suspendable kind ["a"]
                  Stub.fresh)
       = Ok [[4]]
    /\ fst (embed_one Stub.always_500 MAX_BATCH_SIZE blocking kind "a"
                      Stub.fresh)
       = Raise (HTTPError 500)
    /\ fst (embed_one Stub.always_500 MAX_BATCH_SIZE suspendable kind "a"
                      Stub.fresh)
       = Ok [4].
Proof. intros []; repeat split; vm_compute; reflexivity. Qed.

(* ===================================================================== *)
(** ** The theorems at work *)
(* ===================================================================== *)

Lemma MAX_BATCH_SIZE_pos : 0 < MAX_BATCH_SIZE.
Proof. apply Nat.lt_0_succ. Qed.

(** Five items with the bound 2: three batches that give back the
    items. *)
Lemma chunk_partition_witness :
  exists bs : list (list string),
    _chunk 2 Stub.five = Ok bs /\ length bs = 3 /\ concat bs = Stub.five.
Proof.
  destruct (chunk_partition 2 Stub.five ltac:(lia))
    as (bs & Hbs & Hlen & _ & _ & _ & _ & _ & _ & _ & Hcat).
  exists bs. repeat split; assumption.
Defined.

(** Five queries with the bound 2 against the echoing remote: five
    vectors come back. *)
Lemma embed_aligned_witness :
  exists result,
    fst (embed Stub.echo 2 blocking query Stub.five Stub.fresh) = Ok result
    /\ length result = 5.
Proof.
  destruct (embed_aligned Stub.echo 2 blocking query Stub.five Stub.fresh
                          [[[4]; [4]]; [[4]; [4]]; [[4]]])
    as (result & Hres & _ & Hlen & _).
  - lia.
  - cbn. repeat (constructor; [exists 200; split; reflexivity|]). constructor.
  - cbn. repeat constructor.
  - exists result. split; assumption.
Defined.

(** The query prefix ["Q: "] and the inputs ["a"] and ["b"]: the strings
    submitted are ["Q: a"] and ["Q: b"]. With five inputs, the bound 2
    and a second reply that is not accepted, the first four prefixed
    inputs are submitted. *)
Lemma embed_submits_prefixed_witness :
  submitted Stub.fresh
            (snd (embed Stub.echo MAX_BATCH_SIZE blocking query ["a"; "b"]
                        Stub.fresh))
  = ["Q: a"; "Q: b"]
  /\ submitted Stub.fresh
               (snd (embed Stub.second_fails 2 blocking query Stub.five
                           Stub.fresh))
     = ["Q: a"; "Q: b"; "Q: c"; "Q: d"].
Proof.
  split.
  - destruct (embed_submits_prefixed Stub.echo MAX_BATCH_SIZE blocking query
                                     ["a"; "b"] Stub.fresh MAX_BATCH_SIZE_pos)
      as (_ & _ & _ & _ & Hall & _).
    apply Hall. vm_compute. intros rep [<-|[]]. reflexivity.
  - destruct (embed_submits_prefixed Stub.second_fails 2 blocking query
                                     Stub.five Stub.fresh ltac:(lia))
      as (_ & _ & _ & Hexact & _).
    rewrite Hexact. reflexivity.
Defined.

(** Five inputs with the bound 2: three requests, of sizes 2, 2 and 1,
    in that order; two requests when the second reply is not accepted. *)
Lemma embed_calls_witness :
  map (fun r => length (req_inputs r))
      (issued Stub.fresh
              (snd (embed Stub.echo 2 suspendable text Stub.five Stub.fresh)))
  = [2; 2; 1]
  /\ map (fun r => length (req_inputs r))
         (issued Stub.fresh
                 (snd (embed Stub.second_fails 2 blocking text Stub.five
                             Stub.fresh)))
     = [2; 2].
Proof.
  split.
  - destruct (embed_calls Stub.echo 2 suspendable text Stub.five Stub.fresh
                          ltac:(lia))
      as (_ & Hall & _).
    destruct Hall as (Hissued & _ & _).
    + vm_compute. intros rep [<-|[<-|[<-|[]]]]; reflexivity.
    + rewrite Hissued. vm_compute. reflexivity.
  - destruct (embed_calls Stub.second_fails 2 blocking text Stub.five
                          Stub.fresh ltac:(lia))
      as (Hexact & _).
    rewrite Hexact. reflexivity.
Defined.

(** The stub client with the flag set and with the flag cleared. *)
Lemma normalize_inert_witness :
  fst (exec Stub.echo MAX_BATCH_SIZE (Embed blocking query ["a"])
            (mkWorld (with_normalize true Stub.client) []))
  = fst (exec Stub.echo MAX_BATCH_SIZE (Embed blocking query ["a"])
              (mkWorld Stub.client [])).
Proof.
  apply (normalize_inert Stub.echo MAX_BATCH_SIZE
                         (Embed blocking query ["a"])
                         (with_normalize true Stub.client) Stub.client []);
    reflexivity.
Defined.



(* ===================================================================== *)
(** ** Batches of an appended list *)
(* ===================================================================== *)

Lemma ceil_div_add (M k L : nat) :
  0 < M -> ceil_div (k * M + L) M = k + ceil_div L M.
Proof.
  intros HM. unfold ceil_div.
  replace (k * M + L + M - 1) with ((L + M - 1) + k * M) by lia.
  rewrite Nat.div_add by lia. lia.
Qed.

Lemma map_seq_shift {A : Type} (f : nat -> A) (n k : nat) :
  map f (seq k n) = map (fun j => f (k + j)) (seq 0 n).
Proof.
  rewrite <- (Nat.add_0_r k) at 1. generalize 0 as s.
  induction n as [|n IH]; intros s; cbn [seq map].
  - reflexivity.
  - f_equal. rewrite <- IH. f_equal. f_equal. lia.
Qed.

Lemma batches_app {A : Type} (M k : nat) (xs ys : list A) :
  0 < M -> length xs = k * M ->
  batches M (xs ++ ys) = batches M xs ++ batches M ys.
Proof.
  intros HM Hxs. unfold batches.
  rewrite length_app, Hxs, (ceil_div_add M k (length ys) HM).
  replace (ceil_div (k * M) M) with k.
  2:{ rewrite <- (Nat.add_0_r (k * M)), (ceil_div_add M k 0 HM).
      rewrite (ceil_div_0 M HM). lia. }
  rewrite seq_app, map_app. f_equal.
  - apply map_ext_in. intros j Hj. apply in_seq in Hj.
    rewrite !(batch_eq M HM).
    rewrite skipn_app, firstn_app.
    replace (j * M - length xs) with 0 by nia.
    replace (M - length (skipn (j * M) xs)) with 0
      by (rewrite length_skipn; nia).
    cbn [skipn firstn]. apply app_nil_r.
  - cbn [Nat.add]. rewrite map_seq_shift. apply map_ext. intros j.
    rewrite !(batch_eq M HM).
    rewrite skipn_app. rewrite skipn_all2 by nia.
    replace ((k + j) * M - length xs) with (j * M) by nia.
    reflexivity.
Qed.

Lemma in_batches_length {A : Type} (M : nat) (data b : list A) :
  0 < M -> In b (batches M data) -> 0 < length b <= M.
Proof.
  intros HM Hb. unfold batches in Hb.
  apply in_map_iff in Hb as (k & <- & Hk). apply in_seq in Hk.
  assert (Hlow : k * M < length data).
  { destruct (Nat.lt_ge_cases (k * M) (length data)) as [|Hge]; [assumption|].
    apply (ceil_div_least M HM) in Hge. lia. }
  rewrite (batch_length M HM). lia.
Qed.

Lemma batches_single {A : Type} (M : nat) (data : list A) :
  0 < length data <= M -> batches M data = [data].
Proof.
  intros [Hpos Hle]. assert (HM : 0 < M) by lia. unfold batches.
  rewrite (ceil_div_succ M HM) by assumption.
  replace (length data - M) with 0 by lia.
  rewrite (ceil_div_0 M HM). cbn [seq map].
  rewrite (batch_eq M HM). cbn [Nat.mul skipn]. now rewrite firstn_all2.
Qed.

Lemma batches_nil {A : Type} (M : nat) :
  0 < M -> batches M (@nil A) = [].
Proof.
  intros HM. unfold batches. cbn [length]. now rewrite (ceil_div_0 M HM).
Qed.

Lemma In_firstn {A : Type} (x : A) (k : nat) (l : list A) :
  In x (firstn k l) -> In x l.
Proof.
  revert l. induction k as [|k IH]; intros [|y l]; cbn; try contradiction.
  intros [->|H]; [now left | right; now apply IH].
Qed.

(* ===================================================================== *)
(** ** More on failures *)
(* ===================================================================== *)

Section Outcomes.

Context {float : Type}.
Variable remote : list Request -> Request -> Reply float.
Variable M : nat.
Hypothesis M_pos : 0 < M.

(** The single-input method, spelled out on the outcome of the batched
    one. *)
Lemma embed_one_unfold mode kind input w :
  embed_one remote M mode kind input w
  = match embed remote M mode kind [input] w with
    | (Ok result, w') => (Py.getitem result 0, w')
    | (Raise e, w') => (Raise e, w')
    end.
Proof.
  destruct mode, kind; cbn [embed_one embed];
    unfold _get_query_embedding, _get_query_embeddings,
      _aget_query_embedding, _aget_query_embeddings,
      _get_text_embedding, _get_text_embeddings,
      _aget_text_embedding, _aget_text_embeddings,
      _add_query_prefix, _add_text_prefix, bind, attr, ret, lift;
    match goal with
    | |- context [?post remote M ?data w] =>
        destruct (post remote M data w) as [[result|e] w']
    end; reflexivity.
Qed.

(** [embed] as the loop over the batches of the prefixed inputs. *)
Lemma embed_loop mode kind inputs w :
  embed remote M mode kind inputs w
  = loop remote mode (req_url (request_for (self w) []))
         (batches M (map (String.append (prefix_of kind (self w))) inputs))
         [] w.
Proof.
  rewrite embed_unfold. now apply post_unfold.
Qed.

End Outcomes.

(** X3. In either mode, [embed] aborts at the first batch whose reply
    cannot be used, returns no result, and leaves the failing request
    as the last one sent. With no response it raises the transport
    error. The blocking mode, on a status outside 400 to 599, raises
    the decoding error for an empty body or one that is not JSON. The
    suspendable mode raises [ContentTypeError] for a response not
    labelled JSON and, on one that is, [TypeError] for an empty body
    and the decoding error for one that is not JSON. Both raise
    [TypeError] for a JSON value that is not an object and
    [KeyError("embeddings")] for an object without that key. *)
Theorem embed_aborts_on_bad_reply {float : Type}
        (remote : list Request -> Request -> Reply float) (M : nat)
        (mode : Mode) (kind : Kind) (inputs : list string) (w : World)
        (done : list (list string)) (chunk : list string)
        (rest : list (list string)) (vss : list (list (vector float)))
        (e : exn) :
  0 < M ->
  batches M (map (String.append (prefix_of kind (self w))) inputs)
  = done ++ chunk :: rest ->
  Forall2 carries
          (replies remote (sent w) (map (request_for (self w)) done)) vss ->
  match remote (sent w ++ map (request_for (self w)) done)
               (request_for (self w) chunk) with
  | NoResponse => e = TransportError
  | Responded r =>
      match mode with
      | blocking =>
          is_error_status (status_code r) = false
          /\ match body r with
             | Empty => e = JSONDecodeError
             | NotJSON => e = JSONDecodeError
             | JSONValue => e = TypeError
             | JSONObject None => e = KeyError "embeddings"
             | JSONObject (Some _) => False
             end
      | suspendable =>
          if json_content_type r
          then
            match body r with
            | Empty => e = TypeError
            | NotJSON => e = JSONDecodeError
            | JSONValue => e = TypeError
            | JSONObject None => e = KeyError "embeddings"
            | JSONObject (Some _) => False
            end
          else e = ContentTypeError
      end
  end ->
  embed remote M mode kind inputs w
  = (Raise e,
     mkWorld (self w)
             (sent w ++ map (request_for (self w)) (done ++ [chunk]))).
Proof.
  intros HM Hsplit Hdone Hfail.
  rewrite (embed_loop remote M HM), Hsplit.
  apply (loop_rejects remote mode _ done chunk rest vss).
  - eapply Forall2_impl; [|exact Hdone].
    intros rep vs. apply carries_verdict.
  - change (request_to w (req_url (request_for (self w) [])) chunk)
      with (request_for (self w) chunk).
    rewrite request_to_for.
    destruct (remote _ _) as [|r]; [now subst e|].
    destruct mode; cbn [verdict].
    + destruct Hfail as (Hstatus & Hbody). rewrite Hstatus.
      destruct (body r) as [| | |[vs|]];
        first [contradiction | now subst e].
    + destruct (json_content_type r); [|now subst e].
      destruct (body r) as [| | |[vs|]];
        first [contradiction | now subst e].
Qed.


(** X5. The length of a reply is not checked against its batch: when
    every batch is answered with an embeddings list, labelled JSON
    and with no error status, [embed] returns these lists appended,
    however long each one is, so the result has as many vectors as the
    replies hold together. *)
Theorem embed_keeps_reply_lengths {float : Type}
        (remote : list Request -> Request -> Reply float) (M : nat)
        (mode : Mode) (kind : Kind) (inputs : list string) (w : World)
        (vss : list (list (vector float))) :
  0 < M ->
  Forall2 carries
          (replies remote (sent w)
                   (map (request_for (self w))
                        (batches M (map (String.append (prefix_of kind (self w)))
                                        inputs))))
          vss ->
  fst (embed remote M mode kind inputs w) = Ok (concat vss)
  /\ length (concat vss) = list_sum (map (@length (vector float)) vss).
Proof.
  intros HM Hall. split; [|apply length_concat].
  rewrite (embed_loop remote M HM).
  rewrite (loop_accepts remote mode _ _ vss [] w); [reflexivity|].
  eapply Forall2_impl; [|exact Hall].
  intros rep vs. apply carries_verdict.
Qed.

(** X6. With no input there is nothing to send: [embed] on the empty
    list returns the empty list and leaves the wire as it was, whatever
    the remote would answer. *)
Theorem embed_empty {float : Type}
        (remote : list Request -> Request -> Reply float) (M : nat)
        (mode : Mode) (kind : Kind) (w : World) :
  0 < M -> embed remote M mode kind [] w = (Ok [], w).
Proof.
  intros HM. rewrite (embed_loop remote M HM). cbn [map].
  rewrite (batches_nil M HM). apply loop_nil.
Qed.

(** X7. Inputs that fit in one batch (between 1 and [M] strings) are
    not split: [_chunk] returns the list itself as the only batch, and
    [embed] sends exactly one request, with all the prefixed inputs,
    whether the call then returns or raises. *)
Theorem embed_single_request {float : Type}
        (remote : list Request -> Request -> Reply float) (M : nat)
        (mode : Mode) (kind : Kind) (inputs : list string) (w : World) :
  0 < length inputs <= M ->
  _chunk M inputs = Ok [inputs]
  /\ issued w (snd (embed remote M mode kind inputs w))
     = [request_for (self w)
                    (map (String.append (prefix_of kind (self w))) inputs)].
Proof.
  intros Hlen. assert (HM : 0 < M) by lia. split.
  - rewrite (_chunk_closed M HM). now rewrite batches_single.
  - rewrite (embed_loop remote M HM).
    rewrite batches_single by now rewrite length_map.
    rewrite loop_cons.
    destruct (verdict mode _); [rewrite loop_nil|]; cbn [snd];
      apply issued_app; reflexivity.
Qed.

(* ===================================================================== *)
(** ** Single inputs, request headers, composition *)
(* ===================================================================== *)

(** X8. The single-input method sends one request carrying the prefixed
    input alone. When the reply holds an embeddings list (labelled
    JSON, no error status), the method returns the first vector of
    that list, drops any further ones without notice, and raises
    [IndexError] when the list is empty. *)
Theorem embed_one_reply {float : Type}
        (remote : list Request -> Request -> Reply float) (M : nat)
        (mode : Mode) (kind : Kind) (input : string) (w : World)
        (vs : list (vector float)) :
  0 < M ->
  carries (remote (sent w)
                  (request_for (self w)
                               [String.append (prefix_of kind (self w)) input]))
          vs ->
  embed_one remote M mode kind input w
  = (match vs with
     | v :: _ => Ok v
     | [] => Raise IndexError
     end,
     mkWorld (self w)
             (sent w ++ [request_for
                           (self w)
                           [String.append (prefix_of kind (self w)) input]])).
Proof.
  intros HM Hrep.
  rewrite embed_one_unfold, (embed_loop remote M HM). cbn [map].
  rewrite batches_single by (cbn; lia).
  rewrite (loop_accepts remote mode _ _ [vs] [] w).
  - cbn [concat app map]. rewrite app_nil_r. now destruct vs.
  - cbn [map replies]. constructor; [|constructor].
    now apply carries_verdict.
Qed.

(** X9. Every request [embed] sends goes to
    [INFERENCE_URL/<model id>], announces JSON, carries
    ["Bearer <token>"] as authorization, with the literal text ["None"]
    in place of an absent token, and holds at least one and at most
    [M] strings. *)
Theorem embed_request_shape {float : Type}
        (remote : list Request -> Request -> Reply float) (M : nat)
        (mode : Mode) (kind : Kind) (inputs : list string) (w : World)
        (req : Request) :
  0 < M ->
  In req (issued w (snd (embed remote M mode kind inputs w))) ->
  req_url req
  = String.append INFERENCE_URL (String.append "/" (_model_id (self w)))
  /\ req_authorization req
     = String.append "Bearer "
                     match _api_token (self w) with
                     | Some token => token
                     | None => "None"
                     end
  /\ req_content_type req = "application/json"
  /\ 0 < length (req_inputs req) <= M.
Proof.
  intros HM Hin.
  destruct (embed_traced remote M HM mode kind inputs w)
    as (_ & k & _ & Hsent & _).
  rewrite request_to_for in Hsent. apply issued_app in Hsent.
  rewrite Hsent in Hin. apply in_map_iff in Hin as (chunk & <- & Hchunk).
  apply In_firstn in Hchunk.
  cbn [request_for req_url req_authorization req_content_type req_inputs].
  repeat split; try reflexivity;
    now apply (in_batches_length M _ chunk HM Hchunk).
Qed.

(** X10. Splitting the inputs at a batch boundary changes nothing: when
    the first [k * M] inputs are embedded in one call and the others
    in a second call on the state the first one left, the same requests
    go out in the same order as for one call on the whole list, the
    results appended are the result of the whole, and an exception of
    either call is the exception of the whole. *)
Theorem embed_app {float : Type}
        (remote : list Request -> Request -> Reply float) (M k : nat)
        (mode : Mode) (kind : Kind) (xs ys : list string) (w : World) :
  0 < M ->
  length xs = k * M ->
  embed remote M mode kind (xs ++ ys) w
  = match embed remote M mode kind xs w with
    | (Ok r1, w1) =>
        match embed remote M mode kind ys w1 with
        | (Ok r2, w2) => (Ok (r1 ++ r2), w2)
        | (Raise e, w2) => (Raise e, w2)
        end
    | (Raise e, w1) => (Raise e, w1)
    end.
Proof.
  intros HM Hxs.
  rewrite !(embed_loop remote M HM), map_app.
  rewrite (batches_app M k) by (rewrite ?length_map; assumption).
  rewrite loop_app.
  pose proof (loop_traced remote mode (req_url (request_for (self w) []))
                (batches M (map (String.append (prefix_of kind (self w))) xs))
                [] w) as (Hself & _).
  destruct (loop remote mode _ (batches M (map _ xs)) [] w) as [[r1|e] w1];
    [|reflexivity].
  cbn [snd] in Hself.
  rewrite (embed_loop remote M HM), Hself.
  apply loop_acc.
Qed.

(** X11. The two kinds differ by their prefix only: on a client whose
    query prefix and text prefix are equal, as with the defaults, the
    query methods and the text methods do the same, batched or single,
    in either mode. *)
Theorem kinds_agree {float : Type}
        (remote : list Request -> Request -> Reply float) (M : nat)
        (mode : Mode) (w : World) :
  _query_prefix (self w) = _text_prefix (self w) ->
  (forall inputs,
      embed remote M mode query inputs w = embed remote M mode text inputs w)
  /\ (forall input,
         embed_one remote M mode query input w
         = embed_one remote M mode text input w).
Proof.
  intros Hp.
  assert (He : forall inputs,
             embed remote M mode query inputs w
             = embed remote M mode text inputs w).
  { intros inputs. rewrite !embed_unfold. cbn [prefix_of]. now rewrite Hp. }
  split; [exact He|].
  intros input. rewrite !embed_one_unfold. now rewrite He.
Qed.

(** X12. [_chunk] of an appended list whose first part has a length
    that is a multiple of [M] is the batches of the first part
    followed by the batches of the second. *)
Theorem chunk_app {A : Type} (M k : nat) (xs ys : list A) :
  0 < M ->
  length xs = k * M ->
  exists b1 b2,
    _chunk M xs = Ok b1
    /\ _chunk M ys = Ok b2
    /\ length b1 = k
    /\ _chunk M (xs ++ ys) = Ok (b1 ++ b2).
Proof.
  intros HM Hxs.
  exists (batches M xs), (batches M ys).
  rewrite !(_chunk_closed M HM).
  repeat split.
  - rewrite (length_batches M), Hxs.
    rewrite <- (Nat.add_0_r (k * M)), (ceil_div_add M k 0 HM).
    rewrite (ceil_div_0 M HM). lia.
  - now rewrite (batches_app M k).
Qed.

(* ===================================================================== *)
(** ** These properties at work *)
(* ===================================================================== *)

Lemma blocking_embed_aborts_witness :
  embed Stub.second_fails 2 blocking text Stub.five Stub.fresh
  = (Raise (HTTPError 500),
     mkWorld Stub.client
             (map (request_for Stub.client)
                  [["T: a"; "T: b"]; ["T: c"; "T: d"]])).
Proof.
  apply (blocking_embed_aborts Stub.second_fails 2 text Stub.five Stub.fresh
                               [["T: a"; "T: b"]] ["T: c"; "T: d"]
                               [["T: e"]] [[[4]; [4]]] (HTTPError 500)).
  - lia.
  - reflexivity.
  - cbn. constructor; [exists 200; split; reflexivity | constructor].
  - cbn. split; reflexivity.
Defined.


(** An empty body for the second batch, in the suspendable mode. *)
Lemma embed_aborts_on_bad_reply_witness :
  embed Stub.runs_dry 2 suspendable query Stub.five Stub.fresh
  = (Raise TypeError,
     mkWorld Stub.client
             (map (request_for Stub.client)
                  [["Q: a"; "Q: b"]; ["Q: c"; "Q: d"]])).
Proof.
  apply (embed_aborts_on_bad_reply
           Stub.runs_dry 2 suspendable query Stub.five Stub.fresh
           [["Q: a"; "Q: b"]] ["Q: c"; "Q: d"] [["Q: e"]] [[[4]; [4]]]
           TypeError).
  - lia.
  - reflexivity.
  - cbn. constructor; [exists 200; split; reflexivity | constructor].
  - cbn. reflexivity.
Defined.


(** Five inputs, and a remote that sends empty lists: no vector comes
    back, and no exception either. *)
Lemma embed_keeps_reply_lengths_witness :
  fst (embed Stub.silent 2 blocking query Stub.five Stub.fresh) = Ok [].
Proof.
  apply (embed_keeps_reply_lengths Stub.silent 2 blocking query Stub.five
                                   Stub.fresh [[]; []; []]).
  - lia.
  - cbn. repeat (constructor; [exists 200; split; reflexivity|]). constructor.
Defined.

Lemma embed_empty_witness :
  embed Stub.echo MAX_BATCH_SIZE suspendable text [] Stub.fresh
  = (Ok [], Stub.fresh).
Proof.
  apply (embed_empty Stub.echo MAX_BATCH_SIZE suspendable text Stub.fresh).
  apply Nat.lt_0_succ.
Defined.

Lemma embed_single_request_witness :
  _chunk MAX_BATCH_SIZE Stub.five = Ok [Stub.five].
Proof.
  apply (embed_single_request Stub.echo MAX_BATCH_SIZE blocking query
                              Stub.five Stub.fresh).
  split; [apply Nat.lt_0_succ | apply Nat.leb_le; reflexivity].
Defined.

Lemma embed_one_reply_witness :
  fst (embed_one Stub.echo MAX_BATCH_SIZE blocking query "hello" Stub.fresh)
  = Ok [8].
Proof.
  rewrite (embed_one_reply Stub.echo MAX_BATCH_SIZE blocking query "hello"
                           Stub.fresh [[8]]).
  - reflexivity.
  - apply Nat.lt_0_succ.
  - exists 200. split; reflexivity.
Defined.

(** The default client has no token: the header says so in words. *)
Lemma embed_request_shape_witness :
  req_authorization (request_for Stub.default_client ["a"]) = "Bearer None".
Proof.
  apply (embed_request_shape Stub.echo MAX_BATCH_SIZE blocking text ["a"]
                             Stub.default_fresh
                             (request_for Stub.default_client ["a"])).
  - apply Nat.lt_0_succ.
  - vm_compute. left. reflexivity.
Defined.

Lemma embed_app_witness :
  fst (embed Stub.echo 2 blocking query (["a"; "b"] ++ ["c"]) Stub.fresh)
  = Ok [[4]; [4]; [4]].
Proof.
  rewrite (embed_app Stub.echo 2 1 blocking query ["a"; "b"] ["c"] Stub.fresh).
  - reflexivity.
  - lia.
  - reflexivity.
Defined.

Lemma kinds_agree_witness :
  embed Stub.echo MAX_BATCH_SIZE blocking query Stub.five Stub.default_fresh
  = embed Stub.echo MAX_BATCH_SIZE blocking text Stub.five Stub.default_fresh.
Proof.
  apply (kinds_agree Stub.echo MAX_BATCH_SIZE blocking Stub.default_fresh).
  reflexivity.
Defined.

Lemma chunk_app_witness :
  exists b1 b2 : list (list string),
    _chunk 2 (["a"; "b"] ++ ["c"]) = Ok (b1 ++ b2) /\ length b1 = 1.
Proof.
  destruct (chunk_app 2 1 ["a"; "b"] ["c"]) as (b1 & b2 & _ & _ & Hl & Happ).
  - lia.
  - reflexivity.
  - exists b1, b2. split; assumption.
Defined.
